(** * The Neufeld 16S pipeline: task declarations, process runner, resolver

    A shallow embedding of [16S_pipeline.py].  The file declares twelve
    luigi tasks; each one names its requirements ([requires]), its output
    targets ([output]) and a [run] procedure that shells out through
    [run_cmd].  The engine that walks the requirement graph and the target
    class are library code; they are modelled here from the prose
    specification, each under a comment that says so. *)

From Stdlib Require Import ZArith Lia Ascii.
From stdpp Require Import base strings gmap list.

(** ** Strings and paths *)

(** The line feed that the log format strings contain. *)
Definition nl : string := String (Ascii.ascii_of_nat 10) "".

Module os_path.

Definition startswith_sep (s : string) : bool :=
  match s with
  | String c _ => bool_decide (c = "/"%char)
  | EmptyString => false
  end.

Fixpoint endswith_sep (s : string) : bool :=
  match s with
  | EmptyString => false
  | String c EmptyString => bool_decide (c = "/"%char)
  | String _ s' => endswith_sep s'
  end.

(** [os.path.join(a, b)] for two components (posixpath). *)
Definition join (a b : string) : string :=
  if startswith_sep b then b
  else if bool_decide (a = "") || endswith_sep a then a +:+ b
  else a +:+ "/" +:+ b.

Fixpoint has_sep (s : string) : bool :=
  match s with
  | EmptyString => false
  | String c s' => bool_decide (c = "/"%char) || has_sep s'
  end.

Fixpoint all_sep (s : string) : bool :=
  match s with
  | EmptyString => true
  | String c s' => bool_decide (c = "/"%char) && all_sep s'
  end.

(** [p[:p.rfind('/') + 1]] *)
Fixpoint upto_last_sep (p : string) : string :=
  match p with
  | EmptyString => EmptyString
  | String c p' =>
      if has_sep p' then String c (upto_last_sep p')
      else if bool_decide (c = "/"%char) then "/" else ""
  end.

(** [head.rstrip('/')] *)
Fixpoint rstrip_sep (s : string) : string :=
  match s with
  | EmptyString => EmptyString
  | String c s' => if all_sep s then "" else String c (rstrip_sep s')
  end.

(** [os.path.dirname(p)] (posixpath). *)
Definition dirname (p : string) : string :=
  let head := upto_last_sep p in
  if negb (bool_decide (head = "")) && negb (all_sep head)
  then rstrip_sep head else head.

End os_path.

(** ** Configuration

    Every [luigi.Parameter] of the file, read from [luigi.cfg] (or the
    declared default) when a task or config class is instantiated. *)
Record Config := {
  prefix : string;          (* Out_Prefix.prefix *)
  manifest_file : string;   (* Samples.manifest_file *)
  sample_type : string;     (* Import_Data *)
  input_format : string;
  trim_left_f : string;     (* Denoise *)
  trunc_len_f : string;
  trim_left_r : string;
  trunc_len_r : string;
  n_threads : string;
  classifier : string;      (* Taxonomic_Classification *)
  n_jobs : string
}.

(** The defaults written in the parameter declarations; the three
    parameters without a default are arguments. *)
Definition default_config (pfx manifest clf : string) : Config := {|
  prefix := pfx;
  manifest_file := manifest;
  sample_type := "SampleData[PairedEndSequencesWithQuality]";
  input_format := "PairedEndFastqManifestPhred33";
  trim_left_f := "19";
  trunc_len_f := "250";
  trim_left_r := "20";
  trunc_len_r := "250";
  n_threads := "10";
  classifier := clf;
  n_jobs := "10"
|}.

(** [class Output_Dirs] *)
Module Output_Dirs.
Definition out_dir (c : Config) : string := prefix c.
Definition denoise_dir (c : Config) : string := os_path.join (out_dir c) "dada2".
Definition taxonomy_dir (c : Config) : string := os_path.join (out_dir c) "taxonomy".
Definition export_dir (c : Config) : string := os_path.join (out_dir c) "exported".
End Output_Dirs.

(** ** Tasks, requirements and targets *)

Inductive Task :=
  | Import_Data
  | Summarize
  | Denoise
  | Denoise_Tabulate
  | Taxonomic_Classification
  | Taxonomy_Tabulate
  | Export_Feature_Table
  | Export_Taxonomy
  | Export_Representative_Seqs
  | Convert_Biom_to_TSV
  | Generate_Combined_Feature_Table
  | Run_All.

#[global] Instance Task_eq_dec : EqDecision Task.
Proof. solve_decision. Defined.

Definition all_tasks : list Task :=
  [Import_Data; Summarize; Denoise; Denoise_Tabulate; Taxonomic_Classification;
   Taxonomy_Tabulate; Export_Feature_Table; Export_Taxonomy;
   Export_Representative_Seqs; Convert_Biom_to_TSV;
   Generate_Combined_Feature_Table; Run_All].

Definition Task_index (t : Task) : nat :=
  match t with
  | Import_Data => 0 | Summarize => 1 | Denoise => 2 | Denoise_Tabulate => 3
  | Taxonomic_Classification => 4 | Taxonomy_Tabulate => 5
  | Export_Feature_Table => 6 | Export_Taxonomy => 7
  | Export_Representative_Seqs => 8 | Convert_Biom_to_TSV => 9
  | Generate_Combined_Feature_Table => 10 | Run_All => 11
  end.

#[global] Program Instance Task_countable : Countable Task :=
  inj_countable' Task_index (fun n => default Run_All (all_tasks !! n)) _.
Next Obligation. by intros []. Qed.

(** What a [requires] method returns: nothing (the inherited method), one
    task, a dict of tasks or a list of tasks. *)
Inductive Requires :=
  | ReqNone
  | ReqOne (t : Task)
  | ReqDict (d : list (string * Task))
  | ReqList (l : list Task).

Definition requires (t : Task) : Requires :=
  match t with
  | Import_Data => ReqNone
  | Summarize => ReqOne Import_Data
  | Denoise => ReqOne Import_Data
  | Denoise_Tabulate => ReqOne Denoise
  | Taxonomic_Classification => ReqOne Denoise
  | Taxonomy_Tabulate => ReqOne Taxonomic_Classification
  | Export_Feature_Table => ReqOne Denoise
  | Export_Taxonomy => ReqOne Taxonomic_Classification
  | Export_Representative_Seqs => ReqOne Denoise
  | Convert_Biom_to_TSV => ReqOne Export_Feature_Table
  | Generate_Combined_Feature_Table =>
      ReqDict [("Export_Taxonomy", Export_Taxonomy);
               ("Export_Representative_Seqs", Export_Representative_Seqs);
               ("Convert_Biom_to_TSV", Convert_Biom_to_TSV)]
  | Run_All =>
      ReqList [Import_Data; Summarize; Denoise; Denoise_Tabulate;
               Taxonomic_Classification; Taxonomy_Tabulate;
               Export_Feature_Table; Export_Taxonomy;
               Export_Representative_Seqs; Convert_Biom_to_TSV;
               Generate_Combined_Feature_Table]
  end.

(** The tasks of a requirement declaration, in declaration order. *)
Definition req_tasks (r : Requires) : list Task :=
  match r with
  | ReqNone => []
  | ReqOne d => [d]
  | ReqDict d => d.*2
  | ReqList l => l
  end.

Definition deps (t : Task) : list Task := req_tasks (requires t).

(** [luigi.LocalTarget(path, format=...)] *)
Inductive Format := FormatDefault | FormatNop.

Record Target := LocalTarget { path : string; format : Format }.

#[global] Instance Format_eq_dec : EqDecision Format.
Proof. solve_decision. Defined.
#[global] Instance Target_eq_dec : EqDecision Target.
Proof. solve_decision. Defined.

(** What an [output] method returns: nothing (the inherited method, for
    [Run_All]), one target, or a dict of targets. *)
Inductive Outputs :=
  | OutNone
  | OutOne (t : Target)
  | OutDict (d : list (string * Target)).

Definition output (c : Config) (t : Task) : Outputs :=
  match t with
  | Import_Data =>
      let paired_end_demux := os_path.join (Output_Dirs.out_dir c) "paired-end-demux.qza" in
      OutOne (LocalTarget paired_end_demux FormatDefault)
  | Summarize =>
      let summary_file := os_path.join (Output_Dirs.out_dir c) "paired-end-demux.qzv" in
      OutOne (LocalTarget summary_file FormatDefault)
  | Denoise =>
      let denoise_table := os_path.join (Output_Dirs.denoise_dir c) "dada2-table.qza" in
      let rep_seqs := os_path.join (Output_Dirs.denoise_dir c) "dada2-rep-seqs.qza" in
      let denoise_stats := os_path.join (Output_Dirs.denoise_dir c) "stats-dada2.qza" in
      let dada2_log := os_path.join (Output_Dirs.denoise_dir c) "dada2_log.txt" in
      OutDict [("table", LocalTarget denoise_table FormatDefault);
               ("rep_seqs", LocalTarget rep_seqs FormatDefault);
               ("stats", LocalTarget denoise_stats FormatDefault);
               ("log", LocalTarget dada2_log FormatNop)]
  | Denoise_Tabulate =>
      let denoise_tabulated := os_path.join (Output_Dirs.denoise_dir c) "stats-dada2.qzv" in
      OutOne (LocalTarget denoise_tabulated FormatDefault)
  | Taxonomic_Classification =>
      let classified_taxonomy := os_path.join (Output_Dirs.taxonomy_dir c) "taxonomy.qza" in
      let taxonomy_log := os_path.join (Output_Dirs.taxonomy_dir c) "taxonomy_log.txt" in
      OutDict [("taxonomy", LocalTarget classified_taxonomy FormatDefault);
               ("log", LocalTarget taxonomy_log FormatNop)]
  | Taxonomy_Tabulate =>
      let tabulated := os_path.join (Output_Dirs.taxonomy_dir c) "taxonomy.qzv" in
      OutOne (LocalTarget tabulated FormatDefault)
  | Export_Feature_Table =>
      let biom := os_path.join (Output_Dirs.export_dir c) "feature-table.biom" in
      OutOne (LocalTarget biom FormatDefault)
  | Export_Taxonomy =>
      let tsv := os_path.join (Output_Dirs.export_dir c) "taxonomy.tsv" in
      OutOne (LocalTarget tsv FormatDefault)
  | Export_Representative_Seqs =>
      let fasta := os_path.join (Output_Dirs.export_dir c) "dna-sequences.fasta" in
      OutOne (LocalTarget fasta FormatDefault)
  | Convert_Biom_to_TSV =>
      let tsv := os_path.join (Output_Dirs.export_dir c) "feature-table.tsv" in
      OutOne (LocalTarget tsv FormatDefault)
  | Generate_Combined_Feature_Table =>
      let combined_table := os_path.join (Output_Dirs.export_dir c) "ASV_table_combined.tsv" in
      let log := os_path.join (Output_Dirs.export_dir c) "ASV_table_combined.log" in
      OutDict [("table", LocalTarget combined_table FormatDefault);
               ("log", LocalTarget log FormatNop)]
  | Run_All => OutNone
  end.

(** The targets of an output declaration, flattened in order. *)
Definition targets (o : Outputs) : list Target :=
  match o with
  | OutNone => []
  | OutOne t => [t]
  | OutDict d => d.*2
  end.

(** What [self.input()] is: the outputs of the requirements, in the shape
    of [requires]. *)
Inductive Inputs :=
  | InNone
  | InOne (o : Outputs)
  | InDict (d : list (string * Outputs))
  | InList (l : list Outputs).

Definition input (c : Config) (t : Task) : Inputs :=
  match requires t with
  | ReqNone => InNone
  | ReqOne d => InOne (output c d)
  | ReqDict d => InDict (prod_map id (output c) <$> d)
  | ReqList l => InList (output c <$> l)
  end.


(** ** The world a run acts on *)

(** A file: what was written into it and whether this process may read it. *)
Record File := { content : string; readable : bool }.

Abbreviation FS := (gmap string File).

Definition Cmd := list string.

(** What [errno] an [OSError] carries; [ENOENT] is [FileNotFoundError],
    [EACCES] is [PermissionError]. *)
Inductive Errno := ENOENT | EACCES | EOTHER (n : Z).

#[global] Instance Errno_eq_dec : EqDecision Errno.
Proof. solve_decision. Defined.

Inductive Exn :=
  | OSError (errno : Errno) (filename : string)
  | CalledProcessError (returncode : Z) (cmd : Cmd) (output : string)
  | KeyError (key : string)
  | TypeError
  | AttributeError (name : string)
  | UnicodeDecodeError
  (* the two conditions of the resolver *)
  | CyclicDependency
  | IncompleteOutput.

(** What became of one child process: it ran to an exit status, with its
    standard output and standard error and the file system it left, or it
    could not be started. *)
Inductive Spawned :=
  | Exited (returncode : Z) (stdout stderr : string) (fs' : FS)
  | LaunchFailed (errno : Errno).

(** Observations kept beside the file system and the log, in order. *)
Inductive Event :=
  | EvExec (cmd : Cmd) (returncode : option Z)
  | EvOpen (p : string) (err : option Errno)
  | EvWrite (p : string)
  | EvRun (t : Task)
  | EvReturned (t : Task) (complete : bool)
  | EvResolved (t : Task).

#[global] Instance Event_eq_dec : EqDecision Event.
Proof. solve_decision. Defined.

Record World := mkWorld {
  fs : FS;
  log : list string;      (* records of [logger.error] *)
  trace : list Event
}.

Definition set_fs (f : FS) (w : World) : World :=
  mkWorld f (log w) (trace w).
Definition add_log (msg : string) (w : World) : World :=
  mkWorld (fs w) (log w ++ [msg]) (trace w).
Definition add_event (e : Event) (w : World) : World :=
  mkWorld (fs w) (log w) (trace w ++ [e]).

(** ** Computations that may exit or raise *)

Inductive Result (A : Type) :=
  | Ret (a : A)
  | SysExit (code : Z)       (* [sys.exit(code)] *)
  | Raised (e : Exn)
  | OutOfFuel.
Arguments Ret {A} a.
Arguments SysExit {A} code.
Arguments Raised {A} e.
Arguments OutOfFuel {A}.

(** A result without its value. *)
Inductive Outcome := Done | Exit (code : Z) | Fail (e : Exn) | NoFuel.

Definition outcome {A} (r : Result A) : Outcome :=
  match r with
  | Ret _ => Done
  | SysExit c => Exit c
  | Raised e => Fail e
  | OutOfFuel => NoFuel
  end.

Definition M (S A : Type) : Type := S -> Result A * S.

Definition ret {S A} (a : A) : M S A := fun s => (Ret a, s).

Definition bind {S A B} (m : M S A) (k : A -> M S B) : M S B :=
  fun s =>
    match m s with
    | (Ret a, s') => k a s'
    | (SysExit c, s') => (SysExit c, s')
    | (Raised e, s') => (Raised e, s')
    | (OutOfFuel, s') => (OutOfFuel, s')
    end.

Notation "'let*' x ':=' c 'in' k" := (bind c (fun x => k))
  (at level 10, x name, c at level 200, k at level 200,
   format "'[v' 'let*'  x  ':='  c  'in'  '/' k ']'").

Definition raise {S A} (e : Exn) : M S A := fun s => (Raised e, s).
Definition sys_exit {S A} (code : Z) : M S A := fun s => (SysExit code, s).
Definition out_of_fuel {S A} : M S A := fun s => (OutOfFuel, s).
Definition get {S} : M S S := fun s => (Ret s, s).
Definition modify {S} (f : S -> S) : M S unit := fun s => (Ret tt, f s).

(** [try: body except Exception as err: handler(err)]; a [SystemExit] is
    not an [Exception] and passes through. *)
Definition try_except {S A} (body : M S A) (handler : Exn -> M S A) : M S A :=
  fun s =>
    match body s with
    | (Raised e, s') => handler e s'
    | other => other
    end.

Fixpoint mapM {S A B} (f : A -> M S B) (l : list A) : M S (list B) :=
  match l with
  | [] => ret []
  | x :: l' =>
      let* y := f x in
      let* ys := mapM f l' in
      ret (y :: ys)
  end.

(** First binding of a key in a dict literal. *)
Fixpoint assoc {V} (key : string) (d : list (string * V)) : option V :=
  match d with
  | [] => None
  | (k, v) :: d' => if decide (k = key) then Some v else assoc key d'
  end.

(** [o.path] *)
Definition path_of {S} (o : Outputs) : M S string :=
  match o with
  | OutOne t => ret (path t)
  | _ => raise (AttributeError "path")
  end.

(** [o[key]] *)
Definition item_of {S} (o : Outputs) (key : string) : M S Outputs :=
  match o with
  | OutDict d =>
      match assoc key d with
      | Some t => ret (OutOne t)
      | None => raise (KeyError key)
      end
  | _ => raise TypeError
  end.

(** [self.input().path] *)
Definition input_path {S} (i : Inputs) : M S string :=
  match i with
  | InOne o => path_of o
  | _ => raise (AttributeError "path")
  end.

(** [self.input()[key]] *)
Definition input_item {S} (i : Inputs) (key : string) : M S Outputs :=
  match i with
  | InOne o => item_of o key
  | InDict d =>
      match assoc key d with
      | Some o => ret o
      | None => raise (KeyError key)
      end
  | _ => raise TypeError
  end.

Definition logger_error (msg : string) : M World unit := modify (add_log msg).

Definition emit (e : Event) : M World unit := modify (add_event e).

(** [open(p, 'r')] followed by [readlines()]: the text of the file.  The
    file is opened in text mode, so reading it decodes it with the codec
    of the locale; [decodes] says which contents that codec accepts. *)
Definition open_read (decodes : string -> bool) (p : string) : M World string :=
  let* w := get in
  match fs w !! p with
  | None =>
      let* _ := emit (EvOpen p (Some ENOENT)) in
      raise (OSError ENOENT p)
  | Some f =>
      if readable f then
        let* _ := emit (EvOpen p None) in
        if decodes (content f) then ret (content f)
        else raise UnicodeDecodeError
      else
        let* _ := emit (EvOpen p (Some EACCES)) in
        raise (OSError EACCES p)
  end.

(** Modelled from the spec: the target class ([luigi.LocalTarget]) is not
    part of the file.  Section 4.1: [exists()] is true iff the underlying
    path is present and, for file-backed targets, non-empty and readable. *)
Definition Target_exists (f : FS) (t : Target) : bool :=
  match f !! path t with
  | Some x => negb (bool_decide (content x = "")) && readable x
  | None => false
  end.

(** Modelled from the spec: the write half of [open(mode, format_hint)] of
    section 4.1, as [with t.open('w') as fh: fh.write(data)] uses it: when
    the scope is left the path holds [data]. *)
Definition Target_write (t : Target) (data : string) : M World unit :=
  let* _ := emit (EvWrite (path t)) in
  modify (fun w => set_fs (<[path t := {| content := data; readable := true |}]> (fs w)) w).

(** Modelled from the spec: the completeness check of section 4.2, a node
    is complete iff every target of its output declaration exists. *)
Definition complete (c : Config) (t : Task) (f : FS) : bool :=
  forallb (Target_exists f) (targets (output c t)).

(** ** Properties of computations, step by step

    A relation between the state before, the outcome and the state after.
    [holds T m] says every run of [m] is in [T]; a [Stepwise] relation
    holds of a step that does nothing and survives sequencing, so it
    holds of a program as soon as it holds of the program's steps. *)
Definition holds {S A} (T : S -> Outcome -> S -> Prop) (m : M S A) : Prop :=
  forall s, T s (outcome (m s).1) (m s).2.

Class Stepwise {S} (T : S -> Outcome -> S -> Prop) : Prop := {
  step_refl : forall s, T s Done s;
  step_trans : forall s1 s2 s3 o, T s1 Done s2 -> T s2 o s3 -> T s1 o s3
}.

(** The exceptions a wrong subscript or attribute raises. *)
Definition lookup_error (e : Exn) : Prop :=
  match e with
  | KeyError _ | TypeError | AttributeError _ => True
  | _ => False
  end.

(** The task whose [run] was entered last. *)
Definition last_run (l : list Event) : option Task :=
  last (omap (fun e => match e with EvRun t => Some t | _ => None end) l).

(** [t] requires [d], directly or through other tasks. *)
Inductive depends_on : Task -> Task -> Prop :=
  | depends_direct t d : d ∈ deps t -> depends_on t d
  | depends_trans t m d : m ∈ deps t -> depends_on m d -> depends_on t d.

(** The longest chain of requirements below a task. *)
Definition height (t : Task) : nat :=
  match t with
  | Import_Data => 0
  | Summarize | Denoise => 1
  | Denoise_Tabulate | Taxonomic_Classification
  | Export_Feature_Table | Export_Representative_Seqs => 2
  | Taxonomy_Tabulate | Export_Taxonomy | Convert_Biom_to_TSV => 3
  | Generate_Combined_Feature_Table => 4
  | Run_All => 5
  end.

(** What [os.path.join] puts between a directory and a relative name. *)
Definition sepfix (a : string) : string :=
  if bool_decide (a = "") || os_path.endswith_sep a then "" else "/".

(** The output directory with its separator. *)
Definition base_dir (c : Config) : string := prefix c +:+ sepfix (prefix c).

(** The paths of a task's targets below the output directory. *)
Definition rel_paths (t : Task) : list string :=
  match t with
  | Import_Data => ["paired-end-demux.qza"]
  | Summarize => ["paired-end-demux.qzv"]
  | Denoise => ["dada2/dada2-table.qza"; "dada2/dada2-rep-seqs.qza";
                "dada2/stats-dada2.qza"; "dada2/dada2_log.txt"]
  | Denoise_Tabulate => ["dada2/stats-dada2.qzv"]
  | Taxonomic_Classification => ["taxonomy/taxonomy.qza"; "taxonomy/taxonomy_log.txt"]
  | Taxonomy_Tabulate => ["taxonomy/taxonomy.qzv"]
  | Export_Feature_Table => ["exported/feature-table.biom"]
  | Export_Taxonomy => ["exported/taxonomy.tsv"]
  | Export_Representative_Seqs => ["exported/dna-sequences.fasta"]
  | Convert_Biom_to_TSV => ["exported/feature-table.tsv"]
  | Generate_Combined_Feature_Table =>
      ["exported/ASV_table_combined.tsv"; "exported/ASV_table_combined.log"]
  | Run_All => []
  end.

(** The operating system leaves the targets [P] alone: no command makes
    one of them stop existing. *)
Definition keeps_targets (spawn : Cmd -> FS -> Spawned) (P : list Target) : Prop :=
  forall cmd f rc out err f' tg,
    spawn cmd f = Exited rc out err f' ->
    tg ∈ P -> Target_exists f tg = true -> Target_exists f' tg = true.

(** While [N] is complete it stays complete and its [run] is not entered. *)
Definition skips (c : Config) (N : Task) (w : World) (o : Outcome) (w' : World) : Prop :=
  complete c N (fs w) = true ->
  complete c N (fs w') = true /\
  exists new, trace w' = trace w ++ new /\ EvRun N ∉ new.

(** A run that returned and left a declared output missing ends the walk
    with [IncompleteOutput]. *)
Definition incomplete_fails (w : World) (o : Outcome) (w' : World) : Prop :=
  exists new, trace w' = trace w ++ new /\
    forall n, EvReturned n false ∈ new -> o = Fail IncompleteOutput.

(** The record [run_cmd] logs when a command exits with a nonzero status. *)
Definition failure_record (str_exn : Exn -> string) (step : string) (err : Exn) : string :=
  "In " +:+ step +:+ " following error occured" +:+ nl +:+ str_exn err.

(** The record [Import_Data.run] logs when the manifest is not there. *)
Definition missing_input_record : string :=
  "Input file for qiime tools import does not exist...".

(** Fail fast: a command that exits with a nonzero status, or a manifest
    that is not there, is the last thing that happens; the outcome is
    [sys.exit(1)] and the last log record is the one of that failure.
    [quiet] restricts the events; [who] names the step from the events
    before the failure. *)
Definition aborting (str_exn : Exn -> string)
    (quiet : list Event -> Prop) (who : list Event -> string -> Prop)
    (w : World) (o : Outcome) (w' : World) : Prop :=
  exists new added,
    trace w' = trace w ++ new /\ log w' = log w ++ added /\ quiet new /\
    (forall pre cmd rc post,
       new = pre ++ EvExec cmd (Some rc) :: post -> rc <> 0%Z ->
       post = [] /\ o = Exit 1 /\
       exists step out, who pre step /\
         last added = Some (failure_record str_exn step (CalledProcessError rc cmd out))) /\
    (forall pre p post,
       new = pre ++ EvOpen p (Some ENOENT) :: post ->
       post = [] /\ o = Exit 1 /\ last added = Some missing_input_record).

(** No [run] is entered. *)
Definition no_run (l : list Event) : Prop := last_run l = None.

(** Inside the run procedure of one step. *)
Definition in_step (step : string) (_ : list Event) (s : string) : Prop := s = step.

(** In a walk: the step is the task whose [run] was entered last. *)
Definition in_walk (str_task : Task -> string) (pre : list Event) (s : string) : Prop :=
  exists n, last_run pre = Some n /\ s = str_task n.

(** The operating system leaves the path [p] alone. *)
Definition leaves_path (spawn : Cmd -> FS -> Spawned) (p : string) : Prop :=
  forall cmd f rc out err f',
    spawn cmd f = Exited rc out err f' -> f' !! p = f !! p.

(** No file is opened for reading. *)
Definition no_open (w : World) (o : Outcome) (w' : World) : Prop :=
  exists new, trace w' = trace w ++ new /\ forall p e, EvOpen p e ∉ new.

(** Every target the pipeline declares, task by task. *)
Definition all_targets (c : Config) : list Target :=
  all_tasks ≫= (fun t => targets (output c t)).

(** The tasks whose command is [qiime tools export]: they hand the
    directory of their target to the command, not the target. *)
Definition is_export (t : Task) : bool :=
  match t with
  | Export_Feature_Table | Export_Taxonomy | Export_Representative_Seqs => true
  | _ => false
  end.

(** No target is written by the task itself. *)
Definition no_write (w : World) (o : Outcome) (w' : World) : Prop :=
  exists new, trace w' = trace w ++ new /\ forall p, EvWrite p ∉ new.

(** Events are only added. *)
Definition grows (w : World) (o : Outcome) (w' : World) : Prop :=
  exists new, trace w' = trace w ++ new.

(** At most one record is logged, and none by a step that returns. *)
Definition reports (w : World) (o : Outcome) (w' : World) : Prop :=
  exists added,
    log w' = log w ++ added /\ length added <= 1 /\ (o = Done -> added = []).

(** A step that returns has seen every command exit with status 0. *)
Definition clean (w : World) (o : Outcome) (w' : World) : Prop :=
  exists new,
    trace w' = trace w ++ new /\
    (o = Done -> forall cmd r, EvExec cmd r ∈ new -> r = Some 0%Z).

(** The exit status of a child, if it was started. *)
Definition exit_of (s : Spawned) : option Z :=
  match s with
  | Exited rc _ _ _ => Some rc
  | LaunchFailed _ => None
  end.

(** The events that enter a run procedure, and those that record a run
    that returned and left its node complete. *)
Definition is_entry (e : Event) : bool :=
  match e with EvRun _ => true | _ => false end.

Definition is_completion (e : Event) : bool :=
  match e with EvReturned _ true => true | _ => false end.

(** How many runs were entered, and how many returned with their node
    complete. *)
Definition entered (l : list Event) : nat := length (List.filter is_entry l).

Definition completed (l : list Event) : nat := length (List.filter is_completion l).

(** No more runs complete than were entered; a walk that returns has seen
    every run it entered complete, and a walk in which every run that was
    entered completed returns, unless it runs out of fuel or meets a
    cycle. *)
Definition succeeds (w : World) (o : Outcome) (w' : World) : Prop :=
  exists new,
    trace w' = trace w ++ new /\
    completed new <= entered new /\
    (o = Done -> entered new <= completed new) /\
    (entered new <= completed new ->
       o = Done \/ o = NoFuel \/ o = Fail CyclicDependency).

(** Inside a run procedure no run is entered and none is completed. *)
Definition inner (w : World) (o : Outcome) (w' : World) : Prop :=
  exists new, trace w' = trace w ++ new /\ entered new = 0 /\ completed new = 0.

(** No cycle is reported. *)
Definition acyclic {S} (_ : S) (o : Outcome) (_ : S) : Prop :=
  o <> Fail CyclicDependency.

(** An outcome other than running out of fuel. *)
Definition terminates {S} (_ : S) (o : Outcome) (_ : S) : Prop := o <> NoFuel.

(** [needle in haystack] on strings. *)
Fixpoint is_infix (needle haystack : string) : bool :=
  String.prefix needle haystack ||
  match haystack with
  | EmptyString => false
  | String _ rest => is_infix needle rest
  end.

(** ** A small concrete world to run the definitions on *)

Module Demo.

Definition cfg : Config := default_config "out" "manifest.txt" "clf.qza".

Definition file (s : string) : File := {| content := s; readable := true |}.

Definition output_flags : list string :=
  ["--o-visualization"; "--o-table"; "--o-representative-sequences";
   "--o-denoising-stats"; "--o-classification"; "--output-path"; "-o"].

(** The arguments that follow an output flag. *)
Fixpoint output_args (cmd : Cmd) : list string :=
  match cmd with
  | [] => []
  | flag :: rest =>
      match rest with
      | p :: _ => if bool_decide (flag ∈ output_flags) then [p] else []
      | [] => []
      end ++ output_args rest
  end.

(** What [qiime tools export] names the file it writes. *)
Definition exported_name (artifact : string) : string :=
  if bool_decide (artifact = "out/dada2/dada2-table.qza") then "feature-table.biom"
  else if bool_decide (artifact = "out/taxonomy/taxonomy.qza") then "taxonomy.tsv"
  else "dna-sequences.fasta".

Definition created (cmd : Cmd) : list string :=
  match cmd with
  | ["qiime"; "tools"; "export"; "--input-path"; i; "--output-path"; d] =>
      [os_path.join d (exported_name i)]
  | _ => output_args cmd
  end.

(** Every command succeeds, prints [done] and leaves the files it was
    asked for. *)
Definition spawn_ok (cmd : Cmd) (f : FS) : Spawned :=
  Exited 0 "done" "" (foldr (fun p => <[p := file "data"]>) f (created cmd)).

(** As [spawn_ok], but the program [bad] exits with status 2 and leaves
    nothing. *)
Definition spawn_failing (bad : string) (cmd : Cmd) (f : FS) : Spawned :=
  if bool_decide (head cmd = Some bad) then Exited 2 "" "boom" f
  else spawn_ok cmd f.

(** As [spawn_ok], but the program [lazy] succeeds and leaves nothing. *)
Definition spawn_lazy (lazy : string) (cmd : Cmd) (f : FS) : Spawned :=
  if bool_decide (head cmd = Some lazy) then Exited 0 "done" "" f
  else spawn_ok cmd f.

(** The argument that follows [flag]. *)
Fixpoint arg_after (flag : string) (cmd : Cmd) : option string :=
  match cmd with
  | [] => None
  | x :: rest =>
      if bool_decide (x = flag) then head rest else arg_after flag rest
  end.

(** As [spawn_ok], but a command given a classifier that is not there
    exits with status 1. *)
Definition spawn_checking (cmd : Cmd) (f : FS) : Spawned :=
  match arg_after "--i-classifier" cmd with
  | Some p =>
      if bool_decide (is_Some (f !! p)) then spawn_ok cmd f
      else Exited 1 "" "Invalid value for --i-classifier: file does not exist" f
  | None => spawn_ok cmd f
  end.

(** As [spawn_ok], but the import also removes the summary of an earlier
    run. *)
Definition spawn_deleting (cmd : Cmd) (f : FS) : Spawned :=
  match spawn_ok cmd f with
  | Exited rc out err f' =>
      if bool_decide (take 3 cmd = ["qiime"; "tools"; "import"])
      then Exited rc out err (delete "out/paired-end-demux.qzv" f')
      else Exited rc out err f'
  | other => other
  end.

(** No program can be started. *)
Definition spawn_missing (cmd : Cmd) (f : FS) : Spawned := LaunchFailed ENOENT.

(** A locale whose codec is ASCII: it decodes the bytes below 128. *)
Fixpoint decodes (s : string) : bool :=
  match s with
  | EmptyString => true
  | String c s' => (nat_of_ascii c <? 128)%nat && decodes s'
  end.

(** The texts the libraries give: [str] of an exception and of a task. *)
Definition str_exn (e : Exn) : string :=
  match e with
  | OSError ENOENT p => "[Errno 2] No such file or directory: '" +:+ p +:+ "'"
  | OSError EACCES p => "[Errno 13] Permission denied: '" +:+ p +:+ "'"
  | OSError (EOTHER _) p => "OSError: '" +:+ p +:+ "'"
  | CalledProcessError _ cmd _ =>
      "Command '" +:+ default "" (head cmd) +:+ "' returned non-zero exit status"
  | KeyError k => "'" +:+ k +:+ "'"
  | TypeError => "TypeError"
  | AttributeError n => "object has no attribute '" +:+ n +:+ "'"
  | UnicodeDecodeError => "'utf-8' codec can't decode byte"
  | CyclicDependency => "CyclicDependency"
  | IncompleteOutput => "IncompleteOutput"
  end.

Definition str_task (t : Task) : string :=
  match t with
  | Import_Data =>
      "Import_Data(sample_type=SampleData[PairedEndSequencesWithQuality], "
      +:+ "input_format=PairedEndFastqManifestPhred33)"
  | Summarize => "Summarize()"
  | Denoise =>
      "Denoise(trim_left_f=19, trunc_len_f=250, trim_left_r=20, "
      +:+ "trunc_len_r=250, n_threads=10)"
  | Denoise_Tabulate => "Denoise_Tabulate()"
  | Taxonomic_Classification =>
      "Taxonomic_Classification(classifier=clf.qza, n_jobs=10)"
  | Taxonomy_Tabulate => "Taxonomy_Tabulate()"
  | Export_Feature_Table => "Export_Feature_Table()"
  | Export_Taxonomy => "Export_Taxonomy()"
  | Export_Representative_Seqs => "Export_Representative_Seqs()"
  | Convert_Biom_to_TSV => "Convert_Biom_to_TSV()"
  | Generate_Combined_Feature_Table => "Generate_Combined_Feature_Table()"
  | Run_All => "Run_All()"
  end.

(** Only the manifest is there. *)
Definition w0 : World := mkWorld {["manifest.txt" := file "sample-id"]} [] [].
(** Nothing is there. *)
Definition w_empty : World := mkWorld ∅ [] [].
(** The manifest and the imported reads are there. *)
Definition w_imported : World :=
  mkWorld {["manifest.txt" := file "sample-id";
            "out/paired-end-demux.qza" := file "qza"]} [] [].
(** The manifest and the summary of an earlier run are there, the imported
    reads are not. *)
Definition w_summarized : World :=
  mkWorld {["manifest.txt" := file "sample-id";
            "out/paired-end-demux.qzv" := file "qzv"]} [] [].
(** The manifest is there and holds a byte that is not ASCII. *)
Definition w_latin : World :=
  mkWorld {["manifest.txt" := file (String (ascii_of_nat 255) "sample-id")]} [] [].
(** Everything [Convert_Biom_to_TSV] needs is there. *)
Definition w_exported : World :=
  mkWorld (list_to_map
             [("manifest.txt", file "sample-id");
              ("out/paired-end-demux.qza", file "qza");
              ("out/dada2/dada2-table.qza", file "qza");
              ("out/dada2/dada2-rep-seqs.qza", file "qza");
              ("out/dada2/stats-dada2.qza", file "qza");
              ("out/dada2/dada2_log.txt", file "done");
              ("out/exported/feature-table.biom", file "biom")]) [] [].

(** The command of [Convert_Biom_to_TSV] and what precedes it in a walk
    from [w_exported]. *)
Definition biom_cmd : Cmd :=
  ["biom"; "convert"; "-i"; "out/exported/feature-table.biom";
   "-o"; "out/exported/feature-table.tsv"; "--to-tsv"].
Definition before_biom : list Event :=
  [EvResolved Import_Data; EvResolved Denoise; EvResolved Export_Feature_Table;
   EvRun Convert_Biom_to_TSV;
   EvExec ["mkdir"; "-p"; "out/exported"] (Some 0%Z)].

(** What a successful [Denoise] command leaves of [w_imported]. *)
Definition denoised : FS :=
  <["out/dada2/dada2-table.qza" := file "data"]>
    (<["out/dada2/dada2-rep-seqs.qza" := file "data"]>
       (<["out/dada2/stats-dada2.qza" := file "data"]> (fs w_imported))).

(** The command of [Import_Data]. *)
Definition import_cmd : Cmd :=
  ["qiime"; "tools"; "import";
   "--type"; "SampleData[PairedEndSequencesWithQuality]";
   "--input-path"; "manifest.txt";
   "--output-path"; "out/paired-end-demux.qza";
   "--input-format"; "PairedEndFastqManifestPhred33"].

(** The command of [Denoise]. *)
Definition denoise_cmd : Cmd :=
  ["qiime"; "dada2"; "denoise-paired";
   "--i-demultiplexed-seqs"; "out/paired-end-demux.qza";
   "--p-trim-left-f"; "19";
   "--p-trunc-len-f"; "250";
   "--p-trim-left-r"; "20";
   "--p-trunc-len-r"; "250";
   "--p-n-threads"; "10";
   "--o-table"; "out/dada2/dada2-table.qza";
   "--o-representative-sequences"; "out/dada2/dada2-rep-seqs.qza";
   "--o-denoising-stats"; "out/dada2/stats-dada2.qza";
   "--verbose"].

(** The command of [Taxonomic_Classification]. *)
Definition classify_cmd : Cmd :=
  ["qiime"; "feature-classifier"; "classify-sklearn";
   "--i-classifier"; "clf.qza";
   "--i-reads"; "out/dada2/dada2-rep-seqs.qza";
   "--o-classification"; "out/taxonomy/taxonomy.qza";
   "--p-n-jobs"; "10";
   "--verbose"].

End Demo.

(** ** The process runner and the tasks' run procedures *)

Section Pipeline.

(** The operating system: what starting [cmd] on a file system does. *)
Variable spawn : Cmd -> FS -> Spawned.
(** [str(err)] and [str(self)], both library code. *)
Variable str_exn : Exn -> string.
Variable str_task : Task -> string.
(** The configuration in force. *)
Variable cfg : Config.
(** The text codec of the locale: the contents it can decode. *)
Variable decodes : string -> bool.

(** [subprocess.check_output(cmd)]: the standard output of the child if
    it exits with status 0, [CalledProcessError] if it exits with another
    status, an [OSError] if it cannot be started.  Standard error is not
    captured. *)
Definition check_output (cmd : Cmd) : M World string :=
  fun w =>
    match spawn cmd (fs w) with
    | Exited rc out _ fs' =>
        let w' := add_event (EvExec cmd (Some rc)) (set_fs fs' w) in
        if bool_decide (rc = 0%Z) then (Ret out, w')
        else (Raised (CalledProcessError rc cmd out), w')
    | LaunchFailed errno =>
        (Raised (OSError errno (default "" (head cmd))),
         add_event (EvExec cmd None) w)
    end.

Definition run_cmd (cmd : Cmd) (step : string) : M World string :=
  try_except (check_output cmd)
    (fun err =>
       match err with
       | CalledProcessError _ _ _ =>
           let* _ := logger_error
             ("In " +:+ step +:+ " following error occured" +:+ nl +:+ str_exn err) in
           sys_exit 1
       | _ =>
           let* _ := logger_error
             ("In " +:+ step +:+ " unknown error occured" +:+ nl +:+ str_exn err) in
           raise err
       end).

(** The check of the manifest in [Import_Data.run]. *)
Definition check_manifest (inputPath : string) : M World unit :=
  try_except
    (let* _ := open_read decodes inputPath in ret tt)
    (fun err =>
       match err with
       | OSError ENOENT _ =>
           let* _ := logger_error
             "Input file for qiime tools import does not exist..." in
           sys_exit 1
       | _ =>
           let* _ := logger_error
             ("In Import_Data() following error occured" +:+ nl +:+ str_exn err) in
           raise err
       end).

(** The main command of each task, from what [self.input()] is. *)
Definition main_cmd (t : Task) (inp : Inputs) : M World Cmd :=
  match t with
  | Import_Data =>
      let* out := path_of (output cfg t) in
      ret ["qiime"; "tools"; "import";
           "--type"; sample_type cfg;
           "--input-path"; manifest_file cfg;
           "--output-path"; out;
           "--input-format"; input_format cfg]
  | Summarize =>
      let* i := input_path inp in
      let* out := path_of (output cfg t) in
      ret ["qiime"; "demux"; "summarize";
           "--i-data"; i;
           "--o-visualization"; out]
  | Denoise =>
      let* i := input_path inp in
      let* table := let* x := item_of (output cfg t) "table" in path_of x in
      let* rep_seqs := let* x := item_of (output cfg t) "rep_seqs" in path_of x in
      let* stats := let* x := item_of (output cfg t) "stats" in path_of x in
      ret ["qiime"; "dada2"; "denoise-paired";
           "--i-demultiplexed-seqs"; i;
           "--p-trim-left-f"; trim_left_f cfg;
           "--p-trunc-len-f"; trunc_len_f cfg;
           "--p-trim-left-r"; trim_left_r cfg;
           "--p-trunc-len-r"; trunc_len_r cfg;
           "--p-n-threads"; n_threads cfg;
           "--o-table"; table;
           "--o-representative-sequences"; rep_seqs;
           "--o-denoising-stats"; stats;
           "--verbose"]
  | Denoise_Tabulate =>
      let* i := let* x := input_item inp "stats" in path_of x in
      let* out := path_of (output cfg t) in
      ret ["qiime"; "metadata"; "tabulate";
           "--m-input-file"; i;
           "--o-visualization"; out]
  | Taxonomic_Classification =>
      let* i := let* x := input_item inp "rep_seqs" in path_of x in
      let* out := let* x := item_of (output cfg t) "taxonomy" in path_of x in
      ret ["qiime"; "feature-classifier"; "classify-sklearn";
           "--i-classifier"; classifier cfg;
           "--i-reads"; i;
           "--o-classification"; out;
           "--p-n-jobs"; n_jobs cfg;
           "--verbose"]
  | Taxonomy_Tabulate =>
      let* i := let* x := input_item inp "taxonomy" in path_of x in
      let* out := path_of (output cfg t) in
      ret ["qiime"; "metadata"; "tabulate";
           "--m-input-file"; i;
           "--o-visualization"; out]
  | Export_Feature_Table =>
      let* i := let* x := input_item inp "table" in path_of x in
      let* out := path_of (output cfg t) in
      ret ["qiime"; "tools"; "export";
           "--input-path"; i;
           "--output-path"; os_path.dirname out]
  | Export_Taxonomy =>
      let* i := let* x := input_item inp "taxonomy" in path_of x in
      let* out := path_of (output cfg t) in
      ret ["qiime"; "tools"; "export";
           "--input-path"; i;
           "--output-path"; os_path.dirname out]
  | Export_Representative_Seqs =>
      let* i := let* x := input_item inp "rep_seqs" in path_of x in
      let* out := path_of (output cfg t) in
      ret ["qiime"; "tools"; "export";
           "--input-path"; i;
           "--output-path"; os_path.dirname out]
  | Convert_Biom_to_TSV =>
      let* i := input_path inp in
      let* out := path_of (output cfg t) in
      ret ["biom"; "convert";
           "-i"; i;
           "-o"; out;
           "--to-tsv"]
  | Generate_Combined_Feature_Table =>
      let* f := let* x := input_item inp "Convert_Biom_to_TSV" in path_of x in
      let* s := let* x := input_item inp "Export_Representative_Seqs" in path_of x in
      let* tx := let* x := input_item inp "Export_Taxonomy" in path_of x in
      let* out := let* x := item_of (output cfg t) "table" in path_of x in
      ret ["generate_combined_feature_table.py";
           "-f"; f;
           "-s"; s;
           "-t"; tx;
           "-o"; out]
  | Run_All => ret []
  end.

(** The directory each task makes first. *)
Definition work_dir (t : Task) : string :=
  match t with
  | Import_Data | Summarize => Output_Dirs.out_dir cfg
  | Denoise | Denoise_Tabulate => Output_Dirs.denoise_dir cfg
  | Taxonomic_Classification | Taxonomy_Tabulate => Output_Dirs.taxonomy_dir cfg
  | _ => Output_Dirs.export_dir cfg
  end.

Definition mkdir_cmd (t : Task) : Cmd := ["mkdir"; "-p"; work_dir t].

(** The tasks that write the captured output of their command to a log
    target. *)
Definition writes_log (t : Task) : bool :=
  match t with
  | Denoise | Taxonomic_Classification | Generate_Combined_Feature_Table => true
  | _ => false
  end.

(** [with self.output()["log"].open('wb') as fh: fh.write(output)] *)
Definition write_log (t : Task) (data : string) : M World unit :=
  let* lg := item_of (output cfg t) "log" in
  match lg with
  | OutOne tg => Target_write tg data
  | _ => raise (AttributeError "open")
  end.

(** [run(self)], with [self.input()] as an argument.  Every run procedure
    has the same shape: make the directory, (for [Import_Data]) check the
    manifest, build the command, run it, (for three tasks) write the log.
    [Import_Data] hands [self] instead of [str(self)] to [run_cmd]; the
    format string turns it into the same text.  [Run_All] inherits the run
    procedure that does nothing. *)
Definition run (t : Task) (inp : Inputs) : M World unit :=
  match t with
  | Run_All => ret tt
  | _ =>
      let step := str_task t in
      let* _ := run_cmd (mkdir_cmd t) step in
      let* _ := match t with
                | Import_Data => check_manifest (manifest_file cfg)
                | _ => ret tt
                end in
      let* cmd := main_cmd t inp in
      let* out := run_cmd cmd step in
      if writes_log t then write_log t out else ret tt
  end.

(** ** The resolver

    Modelled from the spec: the engine that resolves requirements
    ([luigi.run] and its scheduler) is not part of the file.  Section 4.3:
    a depth-first, memoized walk with a set of nodes being visited and a
    set of resolved nodes with their cached outputs. *)

(** Modelled from the spec: section 4.3, step 1, the state of the walk:
    the nodes being visited, the resolved nodes with their cached outputs, and
    the world the run procedures act on. *)
Record Sched := mkSched {
  visiting : gset Task;
  resolved : gmap Task Outputs;
  world : World
}.

(** Modelled from the spec: a step on the world, taken inside the walk of
    section 4.3. *)
Definition lift {A} (m : M World A) : M Sched A :=
  fun s =>
    let (r, w') := m (world s) in
    (r, mkSched (visiting s) (resolved s) w').

(** Modelled from the spec: section 4.3, step 2, the node is marked as
    being visited. *)
Definition mark_visiting (n : Task) (s : Sched) : Sched :=
  mkSched ({[n]} ∪ visiting s) (resolved s) (world s).

(** Modelled from the spec: section 4.3, step 5, the node leaves the set
    of nodes being visited and its outputs are cached. *)
Definition mark_resolved (n : Task) (o : Outputs) (s : Sched) : Sched :=
  mkSched (visiting s ∖ {[n]}) (<[n := o]> (resolved s))
          (add_event (EvResolved n) (world s)).

(** Modelled from the spec: section 4.3, step 2, the requirements:
    resolve each in declaration order and collect the outputs keyed as
    declared. *)
Definition collect (rec : Task -> M Sched Outputs) (r : Requires) : M Sched Inputs :=
  match r with
  | ReqNone => ret InNone
  | ReqOne d => let* o := rec d in ret (InOne o)
  | ReqDict d =>
      let* os := mapM (fun kv => let* o := rec kv.2 in ret (kv.1, o)) d in
      ret (InDict os)
  | ReqList l => let* os := mapM rec l in ret (InList os)
  end.

(** Modelled from the spec: section 4.3, step 4, invoke [run], then check
    completeness again. *)
Definition attempt (n : Task) (inp : Inputs) : M World unit :=
  let* _ := emit (EvRun n) in
  let* _ := run n inp in
  let* w' := get in
  let* _ := emit (EvReturned n (complete cfg n (fs w'))) in
  if complete cfg n (fs w') then ret tt else raise IncompleteOutput.

(** Modelled from the spec: section 4.3, steps 3 and 4, skip a node that
    is complete when the walk comes to it, attempt any other. *)
Definition execute (n : Task) (inp : Inputs) : M World unit :=
  let* w := get in
  if complete cfg n (fs w) then ret tt else attempt n inp.

(** Modelled from the spec: section 4.3, the depth-first, memoized walk:
    a resolved node gives its cached outputs, a node met again while it is
    being visited is a cycle, any other node is resolved after its
    requirements. *)
Fixpoint resolve (fuel : nat) (n : Task) : M Sched Outputs :=
  match fuel with
  | O => out_of_fuel
  | S fuel' =>
      let* s := get in
      match resolved s !! n with
      | Some o => ret o
      | None =>
          if decide (n ∈ visiting s) then raise CyclicDependency
          else
            let* _ := modify (mark_visiting n) in
            let* inp := collect (resolve fuel') (requires n) in
            let* _ := lift (execute n inp) in
            let* _ := modify (mark_resolved n (output cfg n)) in
            ret (output cfg n)
      end
  end.

(** Modelled from the spec: the walk of section 4.3 has no bound of its
    own; its depth never exceeds the number of tasks. *)
Definition enough_fuel : nat := S (length all_tasks).

(** Modelled from the spec: section 4.3, a walk begins with nothing
    visited and nothing resolved. *)
Definition initial (w : World) : Sched := mkSched ∅ ∅ w.

(** Modelled from the spec: section 6, the status the process ends with,
    0 when the requested node was resolved, the argument of [sys.exit]
    and 1 for an exception when they leave the walk.  The file ends with
    [luigi.run()] and nothing after it; what the engine does with an exit
    raised inside a run procedure is not part of the file. *)
Definition exit_status {A} (r : Result A) : option Z :=
  match r with
  | Ret _ => Some 0%Z
  | SysExit c => Some c
  | Raised _ => Some 1%Z
  | OutOfFuel => None
  end.

(** Modelled from the spec: the entry point of section 4.3, a whole run
    of the pipeline for a requested node ([luigi.run()] on the last line
    of the file hands the node named on the command line to the engine). *)
Definition pipeline (root : Task) (w : World) : Result Outputs * World :=
  let (r, s) := resolve enough_fuel root (initial w) in (r, world s).

End Pipeline.

(** The log target of a task, if its output declaration has one. *)
Definition log_target (c : Config) (t : Task) : option Target :=
  match output c t with
  | OutDict d => assoc "log" d
  | _ => None
  end.

(** A relation on worlds, read on resolver states. *)
Definition on_world (T : World -> Outcome -> World -> Prop)
    (s : Sched) (o : Outcome) (s' : Sched) : Prop :=
  T (world s) o (world s').

(** Every node being visited is at height [k] or above. *)
Definition above (k : nat) (s : Sched) : Prop :=
  forall v, v ∈ visiting s -> k <= height v.

(** Below the nodes being visited no cycle is reported, and a step that
    returns leaves the set of nodes being visited as it was. *)
Definition descends (k : nat) (s : Sched) (o : Outcome) (s' : Sched) : Prop :=
  above k s ->
  o <> Fail CyclicDependency /\ (o = Done -> visiting s' = visiting s).


(** ** The path functions on concrete paths *)

Example join_plain : os_path.join "out" "dada2" = "out/dada2".
Proof. reflexivity. Qed.
Example join_trailing : os_path.join "out/" "dada2" = "out/dada2".
Proof. reflexivity. Qed.
Example join_empty : os_path.join "" "dada2" = "dada2".
Proof. reflexivity. Qed.
Example dirname_biom :
  os_path.dirname "out/exported/feature-table.biom" = "out/exported".
Proof. reflexivity. Qed.
Example dirname_root : os_path.dirname "/x" = "/".
Proof. reflexivity. Qed.

(** ** Reasoning rules *)

Create HintDb pure.

Section Rules.
Context {S : Type} (T : S -> Outcome -> S -> Prop) `{!Stepwise T}.

Lemma holds_ret {A} (a : A) : holds T (ret a).
Proof. intros s. apply step_refl. Qed.

Lemma holds_get : holds T get.
Proof. intros s. apply step_refl. Qed.

Lemma holds_bind {A B} (m : M S A) (k : A -> M S B) :
  holds T m -> (forall a, holds T (k a)) -> holds T (bind m k).
Proof.
  intros Hm Hk s. specialize (Hm s). unfold bind.
  destruct (m s) as [[a|c|e|] s1]; simpl in *; try exact Hm.
  eapply step_trans; [exact Hm | apply Hk].
Qed.

Lemma holds_mapM {A B} (f : A -> M S B) (l : list A) :
  (forall x, x ∈ l -> holds T (f x)) -> holds T (mapM f l).
Proof.
  induction l as [|x l IH]; intros Hf; simpl.
  - apply holds_ret.
  - apply holds_bind; [apply Hf; left|].
    intros y. apply holds_bind; [apply IH; intros; apply Hf; by right|].
    intros ys. apply holds_ret.
Qed.

End Rules.

Ltac not_among H :=
  repeat (apply elem_of_cons in H as [H|H]; [discriminate H|]);
  by apply elem_of_nil in H.

Ltac hret := apply holds_ret; typeclasses eauto.
Ltac hsplit := apply holds_bind; [typeclasses eauto | | intros ?].

Section Facts.
Context (spawn : Cmd -> FS -> Spawned) (str_exn : Exn -> string)
        (str_task : Task -> string) (cfg : Config) (decodes : string -> bool).

Local Abbreviation check_output := (check_output spawn).
Local Abbreviation run_cmd := (run_cmd spawn str_exn).
Local Abbreviation check_manifest := (check_manifest str_exn decodes).
Local Abbreviation main_cmd := (main_cmd cfg).
Local Abbreviation mkdir_cmd := (mkdir_cmd cfg).
Local Abbreviation write_log := (write_log cfg).
Local Abbreviation run := (run spawn str_exn str_task cfg decodes).
Local Abbreviation attempt := (attempt spawn str_exn str_task cfg decodes).
Local Abbreviation execute := (execute spawn str_exn str_task cfg decodes).
Local Abbreviation resolve := (resolve spawn str_exn str_task cfg decodes).
Local Abbreviation pipeline := (pipeline spawn str_exn str_task cfg decodes).

(** *** The steps of a run procedure *)

Lemma path_of_pure (o : Outputs) (w : World) :
  (path_of o w).2 = w /\
  match (path_of o w).1 with
  | Ret _ => True
  | Raised e => lookup_error e
  | _ => False
  end.
Proof. destruct o; simpl; auto. Qed.

Lemma item_of_pure (o : Outputs) (key : string) (w : World) :
  (item_of o key w).2 = w /\
  match (item_of o key w).1 with
  | Ret _ => True
  | Raised e => lookup_error e
  | _ => False
  end.
Proof. destruct o; simpl; auto. destruct (assoc key d); simpl; auto. Qed.

Lemma input_item_pure (i : Inputs) (key : string) (w : World) :
  (input_item i key w).2 = w /\
  match (input_item i key w).1 with
  | Ret _ => True
  | Raised e => lookup_error e
  | _ => False
  end.
Proof.
  destruct i; simpl; auto using item_of_pure.
  destruct (assoc key d); simpl; auto.
Qed.

Lemma input_path_pure (i : Inputs) (w : World) :
  (input_path i w).2 = w /\
  match (input_path i w).1 with
  | Ret _ => True
  | Raised e => lookup_error e
  | _ => False
  end.
Proof. destruct i; simpl; auto using path_of_pure. Qed.

Section Run_rule.
Context (T : World -> Outcome -> World -> Prop) `{!Stepwise T}.
Hypothesis T_lookup : forall e w, lookup_error e -> T w (Fail e) w.

Lemma holds_pure {A} (m : M World A) :
  (forall w, (m w).2 = w /\
             match (m w).1 with
             | Ret _ => True
             | Raised e => lookup_error e
             | _ => False
             end) ->
  holds T m.
Proof.
  intros H w. destruct (H w) as [-> Hr].
  destruct (m w).1; simpl; try done.
  - apply step_refl.
  - by apply T_lookup.
Qed.

Local Hint Resolve path_of_pure item_of_pure input_item_pure
  input_path_pure : pure.

Lemma holds_main_cmd (t : Task) (inp : Inputs) : holds T (main_cmd t inp).
Proof.
  destruct t; simpl;
    repeat first
      [ hret
      | hsplit
      | apply holds_pure; intros ?; auto with pure ].
Qed.

Lemma holds_run (t : Task) (inp : Inputs) :
  (forall cmd, holds T (run_cmd cmd (str_task t))) ->
  (t = Import_Data -> holds T (check_manifest (manifest_file cfg))) ->
  (forall data, writes_log t = true -> holds T (write_log t data)) ->
  holds T (run t inp).
Proof.
  intros Hcmd Hman Hlog.
  destruct t; simpl;
    repeat first
      [ hret
      | apply holds_main_cmd
      | apply Hcmd
      | by apply Hman
      | by apply Hlog
      | hsplit
      | apply holds_pure; intros ?; auto with pure ].
Qed.

End Run_rule.

(** *** The steps of the resolver *)

Lemma holds_collect (TS : Sched -> Outcome -> Sched -> Prop) `{!Stepwise TS}
    (rec : Task -> M Sched Outputs) (r : Requires) :
  (forall d, d ∈ req_tasks r -> holds TS (rec d)) -> holds TS (collect rec r).
Proof.
  intros Hrec. destruct r; simpl in *.
  - hret.
  - hsplit; [apply Hrec; left | hret].
  - hsplit; [|hret]. apply holds_mapM; [typeclasses eauto|].
    intros kv Hkv. hsplit; [|hret]. apply Hrec.
    apply list_elem_of_fmap. by exists kv.
  - hsplit; [|hret]. apply holds_mapM; [typeclasses eauto|]. auto.
Qed.

Section Resolve_rule.
Context (T : World -> Outcome -> World -> Prop) `{!Stepwise T}.
Hypothesis T_fuel : forall w, T w NoFuel w.
Hypothesis T_cycle : forall w, T w (Fail CyclicDependency) w.
Hypothesis T_execute : forall n inp, holds T (execute n inp).
Hypothesis T_resolved : forall n w, T w Done (add_event (EvResolved n) w).

#[local] Instance on_world_stepwise : Stepwise (on_world T).
Proof.
  split; unfold on_world.
  - intros s. apply step_refl.
  - intros s1 s2 s3 o. apply step_trans.
Qed.

Lemma holds_lift {A} (m : M World A) : holds T m -> holds (on_world T) (lift m).
Proof.
  intros H s. specialize (H (world s)). unfold lift, on_world.
  by destruct (m (world s)).
Qed.

Lemma holds_resolve (fuel : nat) (n : Task) : holds (on_world T) (resolve fuel n).
Proof.
  revert n. induction fuel as [|fuel IH]; intros n; simpl.
  - intros s. apply T_fuel.
  - hsplit; [apply holds_get; typeclasses eauto|].
    destruct (resolved a !! n); [hret|].
    destruct (decide (n ∈ visiting a)).
    { intros s. apply T_cycle. }
    hsplit. { intros s. unfold on_world. simpl. apply step_refl. }
    hsplit. { apply holds_collect; [typeclasses eauto|]. intros d _. apply IH. }
    hsplit. { apply holds_lift, T_execute. }
    hsplit. { intros s. unfold on_world. simpl. apply T_resolved. }
    hret.
Qed.

Lemma holds_pipeline (root : Task) (w : World) :
  T w (outcome (pipeline root w).1) (pipeline root w).2.
Proof.
  pose proof (holds_resolve enough_fuel root (initial w)) as H.
  unfold pipeline, on_world in *.
  by destruct (resolve _ _ _).
Qed.

End Resolve_rule.

(** *** What the three effectful steps of a run procedure compute *)

Lemma run_cmd_eq (cmd : Cmd) (step : string) (w : World) :
  run_cmd cmd step w =
  match spawn cmd (fs w) with
  | Exited rc out _ fs' =>
      let w' := add_event (EvExec cmd (Some rc)) (set_fs fs' w) in
      if bool_decide (rc = 0%Z) then (Ret out, w')
      else (SysExit 1,
            add_log ("In " +:+ step +:+ " following error occured" +:+ nl
                     +:+ str_exn (CalledProcessError rc cmd out)) w')
  | LaunchFailed errno =>
      let e := OSError errno (default "" (head cmd)) in
      (Raised e,
       add_log ("In " +:+ step +:+ " unknown error occured" +:+ nl +:+ str_exn e)
               (add_event (EvExec cmd None) w))
  end.
Proof.
  unfold run_cmd, try_except, check_output.
  destruct (spawn cmd (fs w)) as [rc out err fs1|errno]; [|done].
  by case_bool_decide.
Qed.

Lemma check_manifest_eq (p : string) (w : World) :
  check_manifest p w =
  match fs w !! p with
  | None =>
      (SysExit 1,
       add_log "Input file for qiime tools import does not exist..."
               (add_event (EvOpen p (Some ENOENT)) w))
  | Some f =>
      if readable f then
        if decodes (content f) then (Ret tt, add_event (EvOpen p None) w)
        else (Raised UnicodeDecodeError,
              add_log ("In Import_Data() following error occured" +:+ nl
                       +:+ str_exn UnicodeDecodeError)
                      (add_event (EvOpen p None) w))
      else (Raised (OSError EACCES p),
            add_log ("In Import_Data() following error occured" +:+ nl
                     +:+ str_exn (OSError EACCES p))
                    (add_event (EvOpen p (Some EACCES)) w))
  end.
Proof.
  unfold check_manifest, try_except, open_read, bind, get. simpl.
  destruct (fs w !! p) as [f|]; [|done].
  destruct (readable f); [|done]. simpl. by destruct (decodes (content f)).
Qed.

Lemma log_target_writes (t : Task) :
  writes_log t = true -> exists tg, log_target cfg t = Some tg.
Proof. destruct t; try done; intros _; by eexists. Qed.

Lemma write_log_eq (t : Task) (tg : Target) (data : string) (w : World) :
  log_target cfg t = Some tg ->
  write_log t data w =
  (Ret tt,
   set_fs (<[path tg := {| content := data; readable := true |}]> (fs w))
          (add_event (EvWrite (path tg)) w)).
Proof.
  unfold log_target, write_log, item_of. intros H.
  destruct (output cfg t) as [| |d]; try done.
  unfold bind. by rewrite H.
Qed.

(** *** The walk ends: fuel above the height of a task is enough *)

#[local] Instance terminates_stepwise {S} : Stepwise (@terminates S).
Proof. by split. Qed.

Lemma run_terminates (t : Task) (inp : Inputs) : holds terminates (run t inp).
Proof.
  apply holds_run; [typeclasses eauto|done|..].
  - intros cmd w. rewrite run_cmd_eq.
    destruct (spawn cmd (fs w)); [case_bool_decide|]; done.
  - intros _ w. rewrite check_manifest_eq.
    destruct (fs w !! _) as [f|]; [destruct (readable f); [destruct (decodes (content f))|]|]; done.
  - intros data Ht w. destruct (log_target_writes t Ht) as [tg Htg].
    by rewrite (write_log_eq _ _ _ _ Htg).
Qed.

Lemma execute_terminates (t : Task) (inp : Inputs) : holds terminates (execute t inp).
Proof.
  unfold execute. hsplit; [by intros ?|].
  destruct (complete cfg t (fs a)); [hret|]. unfold attempt.
  hsplit; [by intros ?|].
  hsplit; [apply run_terminates|].
  hsplit; [by intros ?|].
  hsplit; [by intros ?|].
  destruct (complete cfg t (fs a2)); [hret|by intros ?].
Qed.

Lemma deps_height (t d : Task) : d ∈ deps t -> height d < height t.
Proof.
  destruct t; unfold deps; simpl; intros H;
    repeat (apply elem_of_cons in H as [->|H]; [simpl; lia|]);
    by apply elem_of_nil in H.
Qed.

Lemma resolve_terminates (fuel : nat) (n : Task) :
  height n < fuel -> holds terminates (resolve fuel n).
Proof.
  revert n. induction fuel as [|fuel IH]; intros n Hn; [lia|]. simpl.
  hsplit; [by intros ?|].
  destruct (resolved a !! n); [hret|].
  destruct (decide (n ∈ visiting a)); [by intros ?|].
  hsplit; [by intros ?|].
  hsplit.
  { apply holds_collect; [typeclasses eauto|]. intros d Hd. apply IH.
    apply deps_height in Hd. lia. }
  hsplit.
  { intros s. pose proof (execute_terminates n a1 (world s)) as H.
    unfold lift, terminates in *. by destruct (execute _ _ _). }
  hsplit; [by intros ?|]. hret.
Qed.

Lemma height_bound (n : Task) : height n < enough_fuel.
Proof. destruct n; unfold enough_fuel; simpl; lia. Qed.

Lemma pipeline_terminates (root : Task) (w : World) :
  (pipeline root w).1 <> OutOfFuel.
Proof.
  pose proof (resolve_terminates enough_fuel root (height_bound root) (initial w)) as H.
  unfold pipeline, terminates in *.
  destruct (resolve _ _ _) as [[] ?]; simpl in *; done.
Qed.

(** *** Where the targets live *)

Lemma append_assoc (a b c : string) : (a +:+ b) +:+ c = a +:+ b +:+ c.
Proof.
  induction a as [|x a IH]; [done|].
  change (String x ((a +:+ b) +:+ c) = String x (a +:+ b +:+ c)).
  by rewrite IH.
Qed.

Lemma endswith_sep_append (a b : string) :
  b <> "" -> os_path.endswith_sep (a +:+ b) = os_path.endswith_sep b.
Proof.
  intros Hb. induction a as [|c a IH]; [done|].
  change (String c a +:+ b) with (String c (a +:+ b)). simpl.
  destruct (a +:+ b) eqn:E; [|done].
  destruct a; [by subst|done].
Qed.

Lemma append_nonempty (a b : string) : b <> "" -> a +:+ b <> "".
Proof. destruct a; [done|by simpl]. Qed.

Lemma join_relative (a b : string) :
  os_path.startswith_sep b = false -> os_path.join a b = a +:+ sepfix a +:+ b.
Proof.
  intros Hb. unfold os_path.join, sepfix. rewrite Hb.
  by destruct (bool_decide (a = "") || os_path.endswith_sep a).
Qed.

Lemma join_subdir (a d x : string) :
  d <> "" -> os_path.endswith_sep d = false ->
  os_path.startswith_sep d = false -> os_path.startswith_sep x = false ->
  os_path.join (os_path.join a d) x = (a +:+ sepfix a) +:+ d +:+ "/" +:+ x.
Proof.
  intros Hd He Hs Hx. rewrite (join_relative a d Hs).
  rewrite join_relative by done.
  assert (sepfix (a +:+ sepfix a +:+ d) = "/") as ->.
  { unfold sepfix. rewrite <-append_assoc, endswith_sep_append, He by done.
    rewrite bool_decide_eq_false_2; [done|]. by apply append_nonempty. }
  by rewrite !append_assoc.
Qed.

Lemma targets_paths (t : Task) :
  path <$> targets (output cfg t) = (fun s => base_dir cfg +:+ s) <$> rel_paths t.
Proof.
  destruct t; simpl;
    unfold Output_Dirs.denoise_dir, Output_Dirs.taxonomy_dir,
      Output_Dirs.export_dir, Output_Dirs.out_dir, base_dir;
    rewrite ?join_subdir, ?join_relative by done;
    by rewrite ?append_assoc.
Qed.

Lemma rel_paths_disjoint (n m : Task) (s : string) :
  n <> m -> s ∈ rel_paths n -> s ∈ rel_paths m -> False.
Proof.
  intros Hnm Hn Hm. revert Hn Hm. rewrite !list_elem_of_In.
  destruct n, m; try done; simpl; intros Hn Hm;
    repeat (destruct Hn as [<-|Hn]; [|]); try done;
    repeat (destruct Hm as [Hm|Hm]; [discriminate Hm|]); done.
Qed.

Lemma paths_disjoint (n m : Task) (tg tg' : Target) :
  n <> m -> tg ∈ targets (output cfg n) -> tg' ∈ targets (output cfg m) ->
  path tg <> path tg'.
Proof.
  intros Hnm Hn Hm Heq.
  apply (list_elem_of_fmap_2 path) in Hn, Hm.
  rewrite targets_paths in Hn, Hm.
  apply list_elem_of_fmap in Hn as (s & Hs & Hn), Hm as (s' & Hs' & Hm).
  rewrite Heq, Hs' in Hs. apply String.app_inj in Hs as <-.
  eapply rel_paths_disjoint; eauto.
Qed.

Lemma assoc_elem {V} (key : string) (d : list (string * V)) (v : V) :
  assoc key d = Some v -> v ∈ d.*2.
Proof.
  induction d as [|[k x] d IH]; simpl; [done|].
  destruct (decide (k = key)); intros H.
  - injection H as ->. left.
  - right. auto.
Qed.

Lemma log_target_elem (t : Task) (tg : Target) :
  log_target cfg t = Some tg -> tg ∈ targets (output cfg t).
Proof.
  unfold log_target. destruct (output cfg t); try done. apply assoc_elem.
Qed.

Lemma complete_Forall (t : Task) (f : FS) :
  complete cfg t f = true <->
  Forall (fun tg => Target_exists f tg = true) (targets (output cfg t)).
Proof.
  unfold complete. induction (targets (output cfg t)) as [|tg l IH]; simpl.
  - split; auto.
  - rewrite andb_true_iff, IH, Forall_cons. tauto.
Qed.

Lemma Target_exists_insert_ne (f : FS) (p : string) (x : File) (tg : Target) :
  path tg <> p -> Target_exists (<[p := x]> f) tg = Target_exists f tg.
Proof. intros H. unfold Target_exists. by rewrite lookup_insert_ne. Qed.

(** *** A complete node is skipped *)

Section Skip.
Context (N : Task).
Hypothesis spawn_keeps : keeps_targets spawn (targets (output cfg N)).

#[local] Instance skips_stepwise : Stepwise (skips cfg N).
Proof.
  split.
  - intros w Hw. split; [done|]. exists []. rewrite app_nil_r.
    split; [done|]. apply not_elem_of_nil.
  - intros w1 w2 w3 o H12 H23 Hw.
    destruct (H12 Hw) as (Hw2 & new1 & E1 & N1).
    destruct (H23 Hw2) as (Hw3 & new2 & E2 & N2).
    split; [done|]. exists (new1 ++ new2).
    rewrite E2, E1, app_assoc. split; [done|].
    rewrite elem_of_app. tauto.
Qed.

Lemma skips_same_fs (w w' : World) (o : Outcome) (new : list Event) :
  fs w' = fs w -> trace w' = trace w ++ new -> EvRun N ∉ new ->
  skips cfg N w o w'.
Proof. intros Hfs Htr Hnew Hw. rewrite Hfs. eauto. Qed.

Lemma run_cmd_skips (cmd : Cmd) (step : string) : holds (skips cfg N) (run_cmd cmd step).
Proof.
  intros w. rewrite run_cmd_eq.
  destruct (spawn cmd (fs w)) as [rc out err f'|errno] eqn:E.
  - assert (skips cfg N w Done (add_event (EvExec cmd (Some rc)) (set_fs f' w))) as H.
    { intros Hw. split.
      - simpl. apply complete_Forall. apply complete_Forall in Hw.
        rewrite Forall_forall in Hw |- *. intros tg Htg.
        eapply spawn_keeps; eauto.
      - exists [EvExec cmd (Some rc)]. split; [done|].
        by intros ?%list_elem_of_singleton. }
    case_bool_decide; simpl; [done|].
    intros Hw. destruct (H Hw) as [? ?]. done.
  - simpl. apply (skips_same_fs _ _ _ [EvExec cmd None]); [done..|].
    by intros ?%list_elem_of_singleton.
Qed.

Lemma check_manifest_skips (p : string) : holds (skips cfg N) (check_manifest p).
Proof.
  intros w. rewrite check_manifest_eq.
  destruct (fs w !! p) as [f|]; [destruct (readable f); [destruct (decodes (content f))|]|]; simpl;
    eapply skips_same_fs; try done; by intros ?%list_elem_of_singleton.
Qed.

Lemma write_log_skips (t : Task) (data : string) :
  t <> N -> writes_log t = true -> holds (skips cfg N) (write_log t data).
Proof.
  intros Hne Ht w. destruct (log_target_writes t Ht) as [tg Htg].
  rewrite (write_log_eq _ _ _ _ Htg). simpl. intros Hw. split.
  - apply complete_Forall. apply complete_Forall in Hw.
    rewrite Forall_forall in Hw |- *. intros tg' Htg'.
    unfold set_fs, add_event; simpl.
    rewrite Target_exists_insert_ne; [auto|].
    apply not_eq_sym. eapply paths_disjoint; eauto using log_target_elem.
  - exists [EvWrite (path tg)]. split; [done|].
    by intros ?%list_elem_of_singleton.
Qed.

Lemma skips_fail (e : Exn) (w : World) : skips cfg N w (Fail e) w.
Proof. apply (skips_same_fs _ _ _ []); [done|by rewrite app_nil_r|apply not_elem_of_nil]. Qed.

Lemma skips_event (e : Event) (o : Outcome) (w : World) :
  e <> EvRun N -> skips cfg N w o (add_event e w).
Proof.
  intros He. apply (skips_same_fs _ _ _ [e]); [done..|].
  by intros ?%list_elem_of_singleton.
Qed.

Lemma attempt_skips (n : Task) (inp : Inputs) :
  n <> N -> holds (skips cfg N) (attempt n inp).
Proof.
  intros Hne. unfold attempt.
  hsplit. { intros w. apply skips_event. congruence. }
  hsplit.
  { apply holds_run; [typeclasses eauto| | | |].
    - intros e w _. apply skips_fail.
    - intros cmd. apply run_cmd_skips.
    - intros _. apply check_manifest_skips.
    - intros data Hn. by apply write_log_skips. }
  hsplit. { apply holds_get. typeclasses eauto. }
  hsplit. { intros w. by apply skips_event. }
  destruct (complete cfg n (fs a1)); [hret|]. intros w. apply skips_fail.
Qed.

Lemma execute_skips (n : Task) (inp : Inputs) : holds (skips cfg N) (execute n inp).
Proof.
  intros w Hw. unfold execute, bind, get.
  destruct (complete cfg n (fs w)) eqn:Hn.
  - by apply (step_refl (T := skips cfg N)).
  - apply attempt_skips; [congruence|done].
Qed.

Lemma pipeline_skips (root : Task) (w : World) :
  skips cfg N w (outcome (pipeline root w).1) (pipeline root w).2.
Proof.
  apply holds_pipeline; [typeclasses eauto| | | |].
  - intros w'. by apply (skips_same_fs _ _ _ []); [|rewrite app_nil_r|apply not_elem_of_nil].
  - intros w'. apply skips_fail.
  - apply execute_skips.
  - intros n w'. by apply skips_event.
Qed.

End Skip.

(** *** A run that leaves an output missing fails the walk *)

#[local] Instance incomplete_fails_stepwise : Stepwise incomplete_fails.
Proof.
  split.
  - intros w. exists []. rewrite app_nil_r. split; [done|].
    by intros n ?%elem_of_nil.
  - intros w1 w2 w3 o (new1 & E1 & H1) (new2 & E2 & H2).
    exists (new1 ++ new2). rewrite E2, E1, app_assoc. split; [done|].
    intros n [Hn|Hn]%elem_of_app; [|eauto].
    by specialize (H1 n Hn).
Qed.

Lemma incomplete_fails_event (e : Event) (o : Outcome) (w w' : World) :
  trace w' = trace w ++ [e] -> (forall n, e <> EvReturned n false) ->
  incomplete_fails w o w'.
Proof.
  intros E He. exists [e]. split; [done|].
  intros n Hn%list_elem_of_singleton. by destruct (He n).
Qed.

Lemma incomplete_fails_silent (o : Outcome) (w w' : World) :
  trace w' = trace w -> incomplete_fails w o w'.
Proof.
  intros E. exists []. rewrite app_nil_r. split; [done|].
  by intros n ?%elem_of_nil.
Qed.

Lemma run_incomplete_fails (t : Task) (inp : Inputs) :
  holds incomplete_fails (run t inp).
Proof.
  apply holds_run; [typeclasses eauto| | | |].
  - intros e w _. by apply incomplete_fails_silent.
  - intros cmd w. rewrite run_cmd_eq.
    destruct (spawn cmd (fs w)); [case_bool_decide|]; simpl;
      by eapply incomplete_fails_event.
  - intros _ w. rewrite check_manifest_eq.
    destruct (fs w !! _) as [f|]; [destruct (readable f); [destruct (decodes (content f))|]|]; simpl;
      by eapply incomplete_fails_event.
  - intros data Ht w. destruct (log_target_writes t Ht) as [tg Htg].
    rewrite (write_log_eq _ _ _ _ Htg). by eapply incomplete_fails_event.
Qed.

Lemma execute_incomplete_fails (n : Task) (inp : Inputs) :
  holds incomplete_fails (execute n inp).
Proof.
  unfold execute. hsplit; [apply holds_get; typeclasses eauto|].
  destruct (complete cfg n (fs a)); [hret|]. unfold attempt.
  hsplit. { intros w. by eapply incomplete_fails_event. }
  hsplit. { apply run_incomplete_fails. }
  hsplit. { apply holds_get; typeclasses eauto. }
  intros w. unfold bind, emit, modify.
  destruct (complete cfg n (fs a2)); simpl.
  - by eapply incomplete_fails_event.
  - exists [EvReturned n false]. done.
Qed.

Lemma pipeline_incomplete_fails (root : Task) (w : World) :
  incomplete_fails w (outcome (pipeline root w).1) (pipeline root w).2.
Proof.
  apply holds_pipeline; [typeclasses eauto| | | |].
  - intros w'. by apply incomplete_fails_silent.
  - intros w'. by apply incomplete_fails_silent.
  - apply execute_incomplete_fails.
  - intros n w'. by eapply incomplete_fails_event.
Qed.

(** *** Fail fast *)

Lemma split_at_event {A} (l1 l2 pre post : list A) (e : A) :
  l1 ++ l2 = pre ++ e :: post ->
  (exists mid, l1 = pre ++ e :: mid /\ post = mid ++ l2) \/
  (exists pre2, pre = l1 ++ pre2 /\ l2 = pre2 ++ e :: post).
Proof.
  revert pre. induction l1 as [|x l1 IH]; intros pre H; simpl in *.
  - right. by exists pre.
  - destruct pre as [|y pre]; simpl in *; injection H as -> H.
    + left. by exists l1.
    + destruct (IH _ H) as [(mid & -> & ->)|(pre2 & -> & ->)];
        [left; by exists mid|right; by exists pre2].
Qed.

Lemma singleton_split {A} (x e : A) (pre post : list A) :
  [x] = pre ++ e :: post -> pre = [] /\ post = [] /\ x = e.
Proof.
  destruct pre as [|y [|z pre]]; simpl; intros H; try done.
  by injection H as -> ->.
Qed.

Lemma last_run_app (a b : list Event) :
  last_run (a ++ b) =
  match last_run b with Some n => Some n | None => last_run a end.
Proof. unfold last_run. by rewrite omap_app, last_app. Qed.

Lemma last_added {A} (a b : list A) (x : A) :
  last b = Some x -> last (a ++ b) = Some x.
Proof. intros H. by rewrite last_app, H. Qed.

Section Abort.
Context (quiet : list Event -> Prop) (who : list Event -> string -> Prop).
Hypothesis quiet_nil : quiet [].
Hypothesis quiet_app : forall a b, quiet a -> quiet b -> quiet (a ++ b).
Hypothesis who_app : forall a pre s, quiet a -> who pre s -> who (a ++ pre) s.

#[local] Instance aborting_stepwise : Stepwise (aborting str_exn quiet who).
Proof.
  split.
  - intros w. exists [], []. rewrite !app_nil_r.
    repeat split; try done; intros; by destruct pre.
  - intros w1 w2 w3 o (new1 & add1 & E1 & L1 & Q1 & X1 & O1)
                       (new2 & add2 & E2 & L2 & Q2 & X2 & O2).
    exists (new1 ++ new2), (add1 ++ add2).
    rewrite E2, E1, L2, L1, !app_assoc.
    split; [done|]. split; [done|]. split; [auto|]. split.
    + intros pre cmd rc post H Hrc.
      apply split_at_event in H as [(mid & -> & ->)|(pre2 & -> & ->)].
      { by destruct (X1 _ _ _ _ eq_refl Hrc) as (_ & ? & _). }
      destruct (X2 _ _ _ _ eq_refl Hrc) as (-> & -> & step & out & Hw & Hl).
      split; [done|]. split; [done|]. exists step, out.
      split; [auto|by apply last_added].
    + intros pre p post H.
      apply split_at_event in H as [(mid & -> & ->)|(pre2 & -> & ->)].
      { by destruct (O1 _ _ _ eq_refl) as (_ & ? & _). }
      destruct (O2 _ _ _ eq_refl) as (-> & -> & Hl).
      split; [done|]. split; [done|]. by apply last_added.
Qed.

Lemma aborting_silent (o : Outcome) (w w' : World) :
  trace w' = trace w -> log w' = log w -> aborting str_exn quiet who w o w'.
Proof.
  intros E L. exists [], []. rewrite !app_nil_r.
  repeat split; try done; intros; by destruct pre.
Qed.

Lemma aborting_event (e : Event) (o : Outcome) (added : list string) (w w' : World) :
  trace w' = trace w ++ [e] -> log w' = log w ++ added -> quiet [e] ->
  match e with
  | EvExec _ (Some rc) => rc = 0%Z
  | EvOpen _ (Some ENOENT) => False
  | _ => True
  end ->
  aborting str_exn quiet who w o w'.
Proof.
  intros E L Q He. exists [e], added.
  split; [done|]. split; [done|]. split; [done|]. split.
  - intros pre cmd rc post (_ & _ & ->)%singleton_split Hrc. done.
  - intros pre p post (_ & _ & ->)%singleton_split. done.
Qed.

End Abort.

Lemma holds_bind_assoc {S A B C} (T : S -> Outcome -> S -> Prop)
    (m : M S A) (k : A -> M S B) (h : B -> M S C) :
  holds T (bind (bind m k) h) -> holds T (bind m (fun a => bind (k a) h)).
Proof.
  intros H s. specialize (H s). unfold bind in *.
  by destruct (m s) as [[a|c|e|] s1].
Qed.

Lemma no_run_nil : no_run [].
Proof. done. Qed.

Lemma no_run_app (a b : list Event) : no_run a -> no_run b -> no_run (a ++ b).
Proof. unfold no_run. intros Ha Hb. by rewrite last_run_app, Hb. Qed.

Lemma no_run_prefix (a b : list Event) : no_run (a ++ b) -> no_run a.
Proof.
  unfold no_run. rewrite last_run_app. by destruct (last_run b).
Qed.

(** Inside one run procedure. *)
Section Abort_step.
Context (step : string).

Local Abbreviation in_run := (aborting str_exn no_run (in_step step)).

#[local] Instance in_run_stepwise : Stepwise in_run.
Proof. apply aborting_stepwise; auto using no_run_nil, no_run_app. Qed.

Lemma run_cmd_aborting (cmd : Cmd) : holds in_run (run_cmd cmd step).
Proof.
  intros w. rewrite run_cmd_eq.
  destruct (spawn cmd (fs w)) as [rc out err f'|errno]; [case_bool_decide|]; simpl.
  - by eapply (aborting_event _ _ _ _ []); [|symmetry; apply app_nil_r|..].
  - exists [EvExec cmd (Some rc)],
      [failure_record str_exn step (CalledProcessError rc cmd out)].
    split; [done|]. split; [done|]. split; [done|]. split.
    + intros pre cmd' rc' post (-> & -> & E)%singleton_split _.
      injection E as <- <-. repeat split. by exists step, out.
    + by intros pre p post (_ & _ & ?)%singleton_split.
  - by eapply aborting_event.
Qed.

Lemma check_manifest_aborting (p : string) : holds in_run (check_manifest p).
Proof.
  intros w. rewrite check_manifest_eq.
  destruct (fs w !! p) as [f|]; [destruct (readable f); [destruct (decodes (content f))|]|]; simpl.
  - by eapply (aborting_event _ _ _ _ []); [|symmetry; apply app_nil_r|..].
  - by eapply aborting_event.
  - by eapply aborting_event.
  - exists [EvOpen p (Some ENOENT)], [missing_input_record].
    split; [done|]. split; [done|]. split; [done|]. split.
    + by intros pre cmd rc post (_ & _ & ?)%singleton_split.
    + by intros pre p' post (-> & -> & _)%singleton_split.
Qed.

Lemma write_log_aborting (t : Task) (data : string) :
  writes_log t = true -> holds in_run (write_log t data).
Proof.
  intros Ht w. destruct (log_target_writes t Ht) as [tg Htg].
  rewrite (write_log_eq _ _ _ _ Htg).
  by eapply (aborting_event _ _ _ _ []); [|symmetry; apply app_nil_r|..].
Qed.

End Abort_step.

Lemma run_aborting (t : Task) (inp : Inputs) :
  holds (aborting str_exn no_run (in_step (str_task t))) (run t inp).
Proof.
  apply holds_run; [apply in_run_stepwise| | | |].
  - intros e w _. by apply aborting_silent.
  - apply run_cmd_aborting.
  - intros _. apply check_manifest_aborting.
  - intros data Ht. by apply write_log_aborting.
Qed.

(** In a walk. *)
Local Abbreviation in_pipeline :=
  (aborting str_exn (fun _ => True) (in_walk str_task)).

Lemma in_walk_app (a pre : list Event) (s : string) :
  in_walk str_task pre s -> in_walk str_task (a ++ pre) s.
Proof.
  intros (n & Hn & ->). exists n. by rewrite last_run_app, Hn.
Qed.

#[local] Instance in_pipeline_stepwise : Stepwise in_pipeline.
Proof. apply aborting_stepwise; auto using in_walk_app. Qed.

Lemma enter_run (n : Task) (o : Outcome) (w w' : World) :
  aborting str_exn no_run (in_step (str_task n)) (add_event (EvRun n) w) o w' ->
  in_pipeline w o w'.
Proof.
  intros (new & added & E & L & Q & X & O).
  exists (EvRun n :: new), added. simpl in E. rewrite <-app_assoc in E.
  split; [done|]. split; [done|]. split; [done|]. split.
  - intros pre cmd rc post H Hrc. destruct pre as [|y pre]; [done|].
    injection H as <- ->.
    destruct (X _ _ _ _ eq_refl Hrc) as (-> & -> & step & out & -> & Hl).
    repeat split. exists (str_task n), out. split; [|done].
    exists n. split; [|done]. apply no_run_prefix in Q.
    change (EvRun n :: pre) with ([EvRun n] ++ pre).
    by rewrite last_run_app, Q.
  - intros pre p post H. destruct pre as [|y pre]; [done|].
    injection H as <- ->. by apply (O _ _ _ eq_refl).
Qed.

Lemma execute_aborting (n : Task) (inp : Inputs) : holds in_pipeline (execute n inp).
Proof.
  unfold execute. hsplit; [apply holds_get; typeclasses eauto|].
  destruct (complete cfg n (fs a)); [hret|]. unfold attempt.
  apply holds_bind_assoc. hsplit.
  { intros w. apply (enter_run n). apply run_aborting. }
  hsplit. { apply holds_get; typeclasses eauto. }
  hsplit. { intros w. by eapply (aborting_event _ _ _ _ []); [|symmetry; apply app_nil_r|..]. }
  destruct (complete cfg n (fs a1)); [hret|].
  intros w. by apply aborting_silent.
Qed.

Lemma pipeline_aborting (root : Task) (w : World) :
  in_pipeline w (outcome (pipeline root w).1) (pipeline root w).2.
Proof.
  apply holds_pipeline; [typeclasses eauto| | | |].
  - intros w'. by apply aborting_silent.
  - intros w'. by apply aborting_silent.
  - apply execute_aborting.
  - intros n w'. by eapply (aborting_event _ _ _ _ []); [|symmetry; apply app_nil_r|..].
Qed.

(** *** No cycle is met *)

#[local] Instance acyclic_stepwise {S} : Stepwise (@acyclic S).
Proof. by split. Qed.

Lemma run_acyclic (t : Task) (inp : Inputs) : holds acyclic (run t inp).
Proof.
  apply holds_run; [typeclasses eauto| | | |].
  - intros e w He [= ->]. exact He.
  - intros cmd w. rewrite run_cmd_eq.
    destruct (spawn cmd (fs w)); [case_bool_decide|]; done.
  - intros _ w. rewrite check_manifest_eq.
    destruct (fs w !! _) as [f|];
      [destruct (readable f); [destruct (decodes (content f))|]|]; done.
  - intros data Ht w. destruct (log_target_writes t Ht) as [tg Htg].
    by rewrite (write_log_eq _ _ _ _ Htg).
Qed.

Lemma execute_acyclic (t : Task) (inp : Inputs) : holds acyclic (execute t inp).
Proof.
  unfold execute. hsplit; [by intros ?|].
  destruct (complete cfg t (fs a)); [hret|]. unfold attempt.
  hsplit; [by intros ?|].
  hsplit; [apply run_acyclic|].
  hsplit; [by intros ?|].
  hsplit; [by intros ?|].
  destruct (complete cfg t (fs a2)); [hret|by intros ?].
Qed.

#[local] Instance descends_stepwise (k : nat) : Stepwise (descends k).
Proof.
  split.
  - by intros s _.
  - intros s1 s2 s3 o H1 H2 Ha.
    destruct (H1 Ha) as [_ V1]. specialize (V1 eq_refl).
    destruct H2 as [Ho V2]; [unfold above; by rewrite V1|].
    split; [done|]. intros E. by rewrite V2.
Qed.

Lemma descends_le (k k' : nat) (A : Type) (m : M Sched A) :
  k <= k' -> holds (descends k) m -> holds (descends k') m.
Proof.
  intros Hk H s Ha. apply H. intros v Hv. apply Ha in Hv. lia.
Qed.

Lemma resolve_eq (fuel : nat) (n : Task) (s : Sched) :
  resolve (S fuel) n s =
  match resolved s !! n with
  | Some o => (Ret o, s)
  | None =>
      if decide (n ∈ visiting s) then (Raised CyclicDependency, s)
      else
        (let* inp := collect (resolve fuel) (requires n) in
         let* _ := lift (execute n inp) in
         let* _ := modify (mark_resolved n (output cfg n)) in
         ret (output cfg n)) (mark_visiting n s)
  end.
Proof.
  simpl. unfold bind at 1. unfold get at 1.
  destruct (resolved s !! n); [done|].
  by destruct (decide (n ∈ visiting s)).
Qed.

Lemma bind_cases {S A B} (m : M S A) (k : A -> M S B) (s : S)
    (P : Result B * S -> Prop) :
  (forall a s1, m s = (Ret a, s1) -> P (k a s1)) ->
  (forall c s1, m s = (SysExit c, s1) -> P (SysExit c, s1)) ->
  (forall e s1, m s = (Raised e, s1) -> P (Raised e, s1)) ->
  (forall s1, m s = (OutOfFuel, s1) -> P (OutOfFuel, s1)) ->
  P (bind m k s).
Proof. unfold bind. destruct (m s) as [[a|c|e|] s1]; eauto. Qed.

Lemma lift_descends (k : nat) (A : Type) (m : M World A) :
  holds acyclic m -> holds (descends k) (lift m).
Proof.
  intros H s _. specialize (H (world s)). unfold lift.
  by destruct (m (world s)) as [r w'].
Qed.

Lemma resolve_descends (fuel : nat) (n : Task) :
  holds (descends (S (height n))) (resolve fuel n).
Proof.
  revert n. induction fuel as [|fuel IH]; intros n s Ha; [done|].
  rewrite resolve_eq.
  destruct (resolved s !! n); [done|].
  destruct (decide (n ∈ visiting s)) as [Hin|Hnin]; [apply Ha in Hin; lia|].
  assert (above (height n) (mark_visiting n s)) as Ha1.
  { intros v Hv. simpl in Hv.
    apply elem_of_union in Hv as [->%elem_of_singleton|Hv]; [lia|].
    apply Ha in Hv. lia. }
  assert (holds (descends (height n)) (collect (resolve fuel) (requires n))) as Hc.
  { apply holds_collect; [typeclasses eauto|]. intros d Hd.
    apply (descends_le (S (height d))); [|apply IH].
    apply deps_height in Hd. lia. }
  specialize (Hc (mark_visiting n s) Ha1).
  set (P := fun r : Result Outputs * Sched =>
              outcome r.1 <> Fail CyclicDependency /\
              (outcome r.1 = Done -> visiting r.2 = visiting s)).
  change (P ((let* inp := collect (resolve fuel) (requires n) in
              let* _ := lift (execute n inp) in
              let* _ := modify (mark_resolved n (output cfg n)) in
              ret (output cfg n)) (mark_visiting n s))).
  apply bind_cases.
  2-4: intros; subst P; simpl; rewrite H in Hc; simpl in Hc; by destruct Hc.
  intros inp s2 E2. rewrite E2 in Hc. destruct Hc as [_ V2].
  specialize (V2 eq_refl). simpl in V2.
  pose proof (lift_descends (height n) _ _ (execute_acyclic n inp) s2) as He.
  destruct He as [He V3]; [unfold above; simpl; by rewrite V2|].
  apply bind_cases.
  2-4: intros; subst P; simpl; rewrite H in He; simpl in He; done.
  intros [] s3 E3. rewrite E3 in V3. specialize (V3 eq_refl). simpl in V3.
  subst P. simpl. split; [done|]. intros _. rewrite V3, V2.
  apply set_eq. intros x.
  rewrite elem_of_difference, elem_of_union, !elem_of_singleton.
  split; [by intros [[?|?] ?]|].
  intros Hx. split; [by right|]. by intros ->.
Qed.

Lemma pipeline_acyclic (root : Task) (w : World) :
  (pipeline root w).1 <> Raised CyclicDependency.
Proof.
  pose proof (resolve_descends enough_fuel root (initial w)) as H.
  unfold pipeline.
  destruct (resolve _ _ _) as [r s]; simpl in *.
  destruct H as [H _]; [intros v Hv; simpl in Hv; by apply elem_of_empty in Hv|].
  intros ->. by apply H.
Qed.

(** *** A walk returns when every run it entered completed *)

Lemma entered_app (a b : list Event) : entered (a ++ b) = entered a + entered b.
Proof. unfold entered. by rewrite List.filter_app, length_app. Qed.

Lemma completed_app (a b : list Event) :
  completed (a ++ b) = completed a + completed b.
Proof. unfold completed. by rewrite List.filter_app, length_app. Qed.

#[local] Instance inner_stepwise : Stepwise inner.
Proof.
  split.
  - intros w. exists []. by rewrite app_nil_r.
  - intros w1 w2 w3 o (n1 & E1 & ? & ?) (n2 & E2 & ? & ?).
    exists (n1 ++ n2). rewrite E2, E1, app_assoc, entered_app, completed_app.
    split; [done|]. lia.
Qed.

Lemma inner_silent (o : Outcome) (w w' : World) : trace w' = trace w -> inner w o w'.
Proof. intros E. exists []. by rewrite app_nil_r. Qed.

Lemma inner_event (e : Event) (o : Outcome) (w w' : World) :
  trace w' = trace w ++ [e] -> is_entry e = false -> is_completion e = false ->
  inner w o w'.
Proof.
  intros E H1 H2. exists [e]. unfold entered, completed. simpl. by rewrite H1, H2.
Qed.

Lemma run_inner (t : Task) (inp : Inputs) : holds inner (run t inp).
Proof.
  apply holds_run; [typeclasses eauto| | | |].
  - intros e w _. by apply inner_silent.
  - intros cmd w. rewrite run_cmd_eq.
    destruct (spawn cmd (fs w)) as [rc out err f'|errno]; [case_bool_decide|]; simpl;
      by eapply inner_event.
  - intros _ w. rewrite check_manifest_eq.
    destruct (fs w !! _) as [f|];
      [destruct (readable f); [destruct (decodes (content f))|]|]; simpl;
      by eapply inner_event.
  - intros data Ht w. destruct (log_target_writes t Ht) as [tg Htg].
    rewrite (write_log_eq _ _ _ _ Htg). by eapply inner_event.
Qed.

#[local] Instance succeeds_stepwise : Stepwise succeeds.
Proof.
  split.
  - intros w. exists []. rewrite app_nil_r. by auto.
  - intros w1 w2 w3 o (n1 & E1 & L1 & D1 & _) (n2 & E2 & L2 & D2 & S2).
    specialize (D1 eq_refl).
    exists (n1 ++ n2). rewrite E2, E1, app_assoc, entered_app, completed_app.
    split; [done|]. split; [lia|]. split.
    + intros Ho. specialize (D2 Ho). lia.
    + intros H. apply S2. lia.
Qed.

Lemma succeeds_silent (o : Outcome) (w w' : World) :
  trace w' = trace w -> o = Done \/ o = NoFuel \/ o = Fail CyclicDependency ->
  succeeds w o w'.
Proof. intros E Ho. exists []. rewrite app_nil_r. by auto. Qed.

Lemma entered_run (n : Task) (new rest : list Event) :
  entered new = 0 -> entered rest = 0 -> entered ([EvRun n] ++ new ++ rest) = 1.
Proof. intros H1 H2. by rewrite !entered_app, H1, H2. Qed.

Lemma completed_run (n : Task) (new rest : list Event) :
  completed new = 0 ->
  completed ([EvRun n] ++ new ++ rest) = completed rest.
Proof. intros H. by rewrite !completed_app, H. Qed.

Lemma execute_succeeds (n : Task) (inp : Inputs) : holds succeeds (execute n inp).
Proof.
  intros w. unfold execute, bind, get. simpl.
  destruct (complete cfg n (fs w)); simpl; [by apply succeeds_silent; auto|].
  unfold attempt, bind, emit, modify, get. simpl.
  destruct (run_inner n inp (add_event (EvRun n) w)) as (new & E & He & Hc).
  simpl in E. rewrite <-app_assoc in E.
  destruct (run n inp (add_event (EvRun n) w)) as [[[]|c|e|] w1]; simpl in *.
  - destruct (complete cfg n (fs w1)); simpl.
    + exists ([EvRun n] ++ new ++ [EvReturned n true]).
      split; [simpl; by rewrite E, <-!app_assoc|].
      rewrite entered_run, completed_run by done.
      change (completed [EvReturned n true]) with 1. auto with lia.
    + exists ([EvRun n] ++ new ++ [EvReturned n false]).
      split; [simpl; by rewrite E, <-!app_assoc|].
      rewrite entered_run, completed_run by done.
      change (completed [EvReturned n false]) with 0.
      split; [lia|]. split; [done|lia].
  - exists ([EvRun n] ++ new ++ []).
    split; [simpl; by rewrite app_nil_r|].
    rewrite entered_run, completed_run by done.
    change (completed []) with 0. split; [lia|]. split; [done|lia].
  - exists ([EvRun n] ++ new ++ []).
    split; [simpl; by rewrite app_nil_r|].
    rewrite entered_run, completed_run by done.
    change (completed []) with 0. split; [lia|]. split; [done|lia].
  - exists ([EvRun n] ++ new ++ []).
    split; [simpl; by rewrite app_nil_r|].
    rewrite entered_run, completed_run by done.
    change (completed []) with 0. split; [lia|]. split; [done|lia].
Qed.

Lemma pipeline_succeeds (root : Task) (w : World) :
  succeeds w (outcome (pipeline root w).1) (pipeline root w).2.
Proof.
  apply holds_pipeline; [typeclasses eauto| | | |].
  - intros w'. apply succeeds_silent; auto.
  - intros w'. apply succeeds_silent; auto.
  - apply execute_succeeds.
  - intros n w'. exists [EvResolved n]. unfold entered, completed. simpl. by auto.
Qed.

Lemma outcome_done {A} (r : Result A) : outcome r = Done -> exists a, r = Ret a.
Proof. destruct r; simpl; try done. by eexists. Qed.

(** ** The claims about the walk *)

Lemma outcome_exit {A} (r : Result A) (c : Z) : outcome r = Exit c -> r = SysExit c.
Proof. destruct r; simpl; congruence. Qed.

Lemma outcome_fail {A} (r : Result A) (e : Exn) : outcome r = Fail e -> r = Raised e.
Proof. destruct r; simpl; congruence. Qed.


(** C4.  A node whose run procedure returns without error while one of
    its declared targets is still missing fails with [IncompleteOutput]:
    at the node (first part), and for the whole walk, where
    [EvReturned n false] records exactly that a run of [n] returned and
    left [n] incomplete (second part). *)
Theorem C4_missing_output_after_run (n : Task) (inp : Inputs) (w w1 : World) :
  complete cfg n (fs w) = false ->
  run n inp (add_event (EvRun n) w) = (Ret (), w1) ->
  complete cfg n (fs w1) = false ->
  (execute n inp w).1 = Raised IncompleteOutput /\
  forall root w0 new,
    trace (pipeline root w0).2 = trace w0 ++ new ->
    EvReturned n false ∈ new ->
    (pipeline root w0).1 = Raised IncompleteOutput.
Proof.
  intros Hw Hrun Hw1. split.
  - unfold execute, attempt, bind, get, emit, modify. simpl.
    rewrite Hw, Hrun. simpl. by rewrite Hw1.
  - intros root w0 new E Hn.
    destruct (pipeline_incomplete_fails root w0) as (new' & E' & H).
    rewrite E in E'. apply app_inv_head in E' as <-.
    apply outcome_fail. eauto.
Qed.

(** C5.  When a command of some node exits with a nonzero status, the
    walk stops there: nothing follows the failing command, so no node
    that requires the failing node, directly or through others, is
    resolved or run afterwards; the process ends with [sys.exit(1)] and
    the last log record names the node whose run procedure issued the
    command. *)
Theorem C5_failure_stops_the_walk (root : Task) (w : World)
    (pre post : list Event) (cmd : Cmd) (rc : Z) :
  trace (pipeline root w).2 = trace w ++ pre ++ EvExec cmd (Some rc) :: post ->
  rc <> 0%Z ->
  exists n out,
    last_run pre = Some n /\
    (forall d, depends_on d n -> (EvRun d ∉ post) /\ (EvResolved d ∉ post)) /\
    post = [] /\
    (pipeline root w).1 = SysExit 1 /\
    last (log (pipeline root w).2) =
      Some (failure_record str_exn (str_task n) (CalledProcessError rc cmd out)).
Proof.
  intros E Hrc.
  destruct (pipeline_aborting root w) as (new & added & E' & L & _ & X & _).
  rewrite E in E'. apply app_inv_head in E' as <-.
  destruct (X _ _ _ _ eq_refl Hrc) as (-> & Ho & step & out & (n & Hn & ->) & Hl).
  exists n, out. split; [done|]. split.
  { intros d _. split; apply not_elem_of_nil. }
  split; [done|]. split; [by apply outcome_exit|].
  rewrite L. by apply last_added.
Qed.


(** ** The claims about the process runner *)

(** C3, as amended.  The runner starts the command once.  If the child
    exits with status 0 the runner returns its captured standard output
    and logs nothing.  If it exits with another status the runner logs one
    record, with the step and the text of the error, and ends the process
    with [sys.exit(1)]: what reaches the caller is the status 1, not a
    condition with the command, the exit status and standard error (which
    is not captured at all). *)
Theorem C3_run_cmd_on_exit (cmd : Cmd) (step : string) (w : World)
    (rc : Z) (out err : string) (f' : FS) :
  spawn cmd (fs w) = Exited rc out err f' ->
  trace (run_cmd cmd step w).2 = trace w ++ [EvExec cmd (Some rc)] /\
  fs (run_cmd cmd step w).2 = f' /\
  (rc = 0%Z ->
     (run_cmd cmd step w).1 = Ret out /\ log (run_cmd cmd step w).2 = log w) /\
  (rc <> 0%Z ->
     (run_cmd cmd step w).1 = SysExit 1 /\
     log (run_cmd cmd step w).2 =
       log w ++ ["In " +:+ step +:+ " following error occured" +:+ nl
                 +:+ str_exn (CalledProcessError rc cmd out)]).
Proof.
  intros E. rewrite run_cmd_eq, E. by case_bool_decide.
Qed.

(** C8.  When the command cannot be started, the exception that
    [check_output] raised is the one the runner raises: it is logged and
    raised again, neither swallowed nor turned into an exit. *)
Theorem C8_launch_error_is_raised_again (cmd : Cmd) (step : string) (w : World)
    (errno : Errno) :
  spawn cmd (fs w) = LaunchFailed errno ->
  exists e,
    e = OSError errno (default "" (head cmd)) /\
    (check_output cmd w).1 = Raised e /\
    (run_cmd cmd step w).1 = Raised e /\
    fs (run_cmd cmd step w).2 = fs w /\
    log (run_cmd cmd step w).2 =
      log w ++ ["In " +:+ step +:+ " unknown error occured" +:+ nl +:+ str_exn e].
Proof.
  intros E. eexists. split; [done|].
  rewrite run_cmd_eq. unfold check_output. by rewrite E.
Qed.

(** *** The shape of a run procedure *)

Lemma main_cmd_cases (t : Task) (inp : Inputs) :
  (exists cmd, forall w', main_cmd t inp w' = (Ret cmd, w')) \/
  (exists e, lookup_error e /\ forall w', main_cmd t inp w' = (Raised e, w')).
Proof.
  destruct t; simpl; unfold bind;
    repeat match goal with
    | |- context [input_path inp] => destruct inp as [|[]| |]; simpl
    | |- context [input_item inp ?k] => destruct inp as [|[| |d]|d|]; simpl
    | |- context [assoc ?k ?d] =>
        let x := fresh "x" in destruct (assoc k d) as [x|]; [destruct x|]; simpl
    end;
    first [ left; eexists; intros; reflexivity
          | right; eexists; split; [|intros; reflexivity]; exact I ].
Qed.

Lemma bind_eq {S A B} (m : M S A) (k : A -> M S B) (s s1 : S) (r : Result A) :
  m s = (r, s1) ->
  bind m k s =
  match r with
  | Ret a => k a s1
  | SysExit c => (SysExit c, s1)
  | Raised e => (Raised e, s1)
  | OutOfFuel => (OutOfFuel, s1)
  end.
Proof. intros H. unfold bind. by rewrite H. Qed.

Lemma run_shape (t : Task) (inp : Inputs) :
  t <> Run_All ->
  run t inp =
  (let* _ := run_cmd (mkdir_cmd t) (str_task t) in
   let* _ := match t with
             | Import_Data => check_manifest (manifest_file cfg)
             | _ => ret ()
             end in
   let* cmd := main_cmd t inp in
   let* out := run_cmd cmd (str_task t) in
   if writes_log t then write_log t out else ret ()).
Proof. by destruct t. Qed.

(** C9.  In a task that writes a log target, the write comes directly
    after the main command has exited with status 0.  If the run
    procedure does not return, nothing was written: no write is among
    its events, and (when no external command touches that path) the log
    target is as it was. *)
Theorem C9_log_written_only_after_success (t : Task) (inp : Inputs) (w : World)
    (tg : Target) :
  writes_log t = true ->
  log_target cfg t = Some tg ->
  exists new,
    trace (run t inp w).2 = trace w ++ new /\
    (forall p, EvWrite p ∈ new ->
       (run t inp w).1 = Ret () /\
       exists pre cmd,
         (main_cmd t inp w).1 = Ret cmd /\
         new = pre ++ [EvExec cmd (Some 0%Z); EvWrite (path tg)]) /\
    ((run t inp w).1 <> Ret () ->
       (forall p, EvWrite p ∉ new) /\
       (leaves_path spawn (path tg) ->
          fs (run t inp w).2 !! path tg = fs w !! path tg)).
Proof.
  intros Ht Htg.
  assert (t <> Run_All /\ t <> Import_Data) as [Hr Hi] by (by destruct t).
  remember (run t inp w) as R eqn:ER.
  rewrite (run_shape t inp Hr), Ht in ER. unfold bind at 1 in ER.
  rewrite run_cmd_eq in ER.
  destruct (spawn (mkdir_cmd t) (fs w)) as [rc1 out1 err1 f1|errno1] eqn:E1;
    [case_bool_decide|].
  2,3: subst R; eexists [_]; simpl; split; [done|]; split;
    [by intros p [=]%list_elem_of_singleton|];
    intros _; split; [by intros p [=]%list_elem_of_singleton|];
    intros Hl; simpl; eauto.
  unfold bind at 1 in ER.
  replace (match t with Import_Data => check_manifest (manifest_file cfg) | _ => ret () end)
    with (@ret World _ ()) in ER by (by destruct t).
  unfold ret at 1 in ER. unfold bind at 1 in ER.
  destruct (main_cmd_cases t inp) as [(cmd & Hc)|(e & He & Hc)]; rewrite !Hc in *.
  2: { subst R; eexists [_]; simpl; split; [done|]; split;
         [by intros p [=]%list_elem_of_singleton|];
       intros _; split; [by intros p [=]%list_elem_of_singleton|];
       intros Hl; simpl; eauto. }
  unfold bind in ER. rewrite run_cmd_eq in ER. simpl in ER.
  destruct (spawn cmd f1) as [rc2 out2 err2 f2|errno2] eqn:E2;
    [case_bool_decide|].
  2,3: subst R; eexists [_; _]; simpl; rewrite <-app_assoc; split; [done|]; split;
    [intros p Hp; not_among Hp|];
    intros _; split; [intros p Hp; not_among Hp|];
    intros Hl; simpl; erewrite ?Hl by eauto; eauto.
  rewrite (write_log_eq _ _ _ _ Htg) in ER. simpl in ER. subst R. simpl.
  eexists [_; _; _]. rewrite <-!app_assoc. split; [done|]. split; [|done].
  intros p _. split; [done|]. subst. by exists [EvExec (mkdir_cmd t) (Some 0%Z)], cmd.
Qed.

(** *** Who checks its input *)

#[local] Instance no_open_stepwise : Stepwise no_open.
Proof.
  split.
  - intros w. exists []. rewrite app_nil_r. split; [done|].
    intros p e. apply not_elem_of_nil.
  - intros w1 w2 w3 o (new1 & E1 & H1) (new2 & E2 & H2).
    exists (new1 ++ new2). rewrite E2, E1, app_assoc. split; [done|].
    intros p e [?|?]%elem_of_app; [by eapply H1|by eapply H2].
Qed.

Lemma no_open_event (ev : Event) (o : Outcome) (w w' : World) :
  trace w' = trace w ++ [ev] -> (forall p e, ev <> EvOpen p e) -> no_open w o w'.
Proof.
  intros E He. exists [ev]. split; [done|].
  intros p e Hn%list_elem_of_singleton. by destruct (He p e).
Qed.

Lemma run_no_open (t : Task) (inp : Inputs) :
  t <> Import_Data -> holds no_open (run t inp).
Proof.
  intros Ht. apply holds_run; [typeclasses eauto| | |done|].
  - intros e w _. exists []. rewrite app_nil_r. split; [done|].
    intros p e'. apply not_elem_of_nil.
  - intros cmd w. rewrite run_cmd_eq.
    destruct (spawn cmd (fs w)); [case_bool_decide|]; simpl;
      by eapply no_open_event.
  - intros data Hl w. destruct (log_target_writes t Hl) as [tg Htg].
    rewrite (write_log_eq _ _ _ _ Htg). by eapply no_open_event.
Qed.

Lemma classify_cmd (inp : Inputs) (w : World) (cmd : Cmd) :
  (main_cmd Taxonomic_Classification inp w).1 = Ret cmd ->
  exists reads out,
    cmd = ["qiime"; "feature-classifier"; "classify-sklearn";
           "--i-classifier"; classifier cfg;
           "--i-reads"; reads;
           "--o-classification"; out;
           "--p-n-jobs"; n_jobs cfg;
           "--verbose"].
Proof.
  simpl; unfold bind;
    repeat match goal with
    | |- context [input_item inp ?k] => destruct inp as [|[| |d]|d|]; simpl
    | |- context [assoc ?k ?d] =>
        let x := fresh "x" in destruct (assoc k d) as [x|]; [destruct x|]; simpl
    end; intros [=]; eauto.
Qed.

Lemma failure_record_not_missing_input (step : string) (e : Exn) :
  failure_record str_exn step e <> missing_input_record.
Proof. discriminate. Qed.

(** C10.  [Import_Data] opens the manifest before it issues its command:
    when the manifest is not there the command is never started, the
    fixed record is logged and the process exits with status 1; when it
    cannot be read the error is logged and raised.  No other task opens
    a file.  [Taxonomic_Classification] hands the classifier path to its
    command whether or not the file is there, so a missing classifier
    shows as the nonzero exit of that command: the record of a failed
    command, not the record of a missing input. *)
Theorem C10_only_import_data_checks_its_input :
  (forall inp w out err f1,
     spawn (mkdir_cmd Import_Data) (fs w) = Exited 0 out err f1 ->
     match f1 !! manifest_file cfg with
     | None =>
         run Import_Data inp w =
         (SysExit 1,
          mkWorld f1 (log w ++ ["Input file for qiime tools import does not exist..."])
            (trace w ++ [EvExec (mkdir_cmd Import_Data) (Some 0%Z);
                         EvOpen (manifest_file cfg) (Some ENOENT)]))
     | Some f =>
         readable f = false ->
         (run Import_Data inp w).1 = Raised (OSError EACCES (manifest_file cfg)) /\
         trace (run Import_Data inp w).2 =
           trace w ++ [EvExec (mkdir_cmd Import_Data) (Some 0%Z);
                       EvOpen (manifest_file cfg) (Some EACCES)]
     end) /\
  (forall t inp w,
     t <> Import_Data ->
     exists new,
       trace (run t inp w).2 = trace w ++ new /\ forall p e, EvOpen p e ∉ new) /\
  (forall inp w out1 err1 f1 cmd rc out err f2,
     spawn (mkdir_cmd Taxonomic_Classification) (fs w) = Exited 0 out1 err1 f1 ->
     f1 !! classifier cfg = None ->
     (main_cmd Taxonomic_Classification inp w).1 = Ret cmd ->
     spawn cmd f1 = Exited rc out err f2 ->
     rc <> 0%Z ->
     classifier cfg ∈ cmd /\
     run Taxonomic_Classification inp w =
       (SysExit 1,
        mkWorld f2
          (log w ++ [failure_record str_exn (str_task Taxonomic_Classification)
                       (CalledProcessError rc cmd out)])
          (trace w ++ [EvExec (mkdir_cmd Taxonomic_Classification) (Some 0%Z);
                       EvExec cmd (Some rc)])) /\
     failure_record str_exn (str_task Taxonomic_Classification)
       (CalledProcessError rc cmd out) <> missing_input_record).
Proof.
  split; [|split].
  - intros inp w out err f1 E1.
    pose proof (run_cmd_eq (mkdir_cmd Import_Data) (str_task Import_Data) w) as Hm.
    rewrite E1 in Hm. simpl in Hm.
    rewrite (run_shape Import_Data inp) by done.
    rewrite (bind_eq _ _ _ _ _ Hm).
    destruct (f1 !! manifest_file cfg) as [f|] eqn:Em.
    + intros Hf.
      erewrite bind_eq by (rewrite check_manifest_eq; simpl; rewrite Em, Hf; done).
      simpl. by rewrite <-app_assoc.
    + erewrite bind_eq by (rewrite check_manifest_eq; simpl; rewrite Em; done).
      unfold add_log, add_event. simpl. by rewrite <-app_assoc.
  - intros t inp w Ht. apply (run_no_open t inp Ht w).
  - intros inp w out1 err1 f1 cmd rc out err f2 E1 _ Hc E2 Hrc.
    split; [|split; [|apply failure_record_not_missing_input]].
    + apply classify_cmd in Hc as (reads & o & ->).
      rewrite !elem_of_cons. tauto.
    + pose proof (run_cmd_eq (mkdir_cmd Taxonomic_Classification)
                    (str_task Taxonomic_Classification) w) as Hm.
      rewrite E1 in Hm. simpl in Hm.
      rewrite (run_shape Taxonomic_Classification inp) by done.
      rewrite (bind_eq _ _ _ _ _ Hm). unfold bind at 1. unfold ret at 1.
      destruct (main_cmd_cases Taxonomic_Classification inp)
        as [(cmd' & Hc')|(e & He & Hc')]; rewrite Hc' in Hc; [|done].
      injection Hc as ->. rewrite (bind_eq _ _ _ _ _ (Hc' _)).
      erewrite bind_eq
        by (rewrite run_cmd_eq; simpl; rewrite E2, bool_decide_eq_false_2 by done; done).
      unfold add_log, add_event, set_fs, failure_record. simpl.
      by rewrite <-app_assoc.
Qed.

End Facts.

(** ** The claims about targets and output declarations *)

(** C6.  A target exists iff its path is present and the file there is
    non-empty and readable; and the completeness check looks at nothing
    else: replacing what a file holds by any other non-empty data never
    changes whether a node is complete. *)
Theorem C6_exists_is_presence_only (f : FS) (tg : Target) :
  (Target_exists f tg = true <->
   exists x, f !! path tg = Some x /\ content x <> "" /\ readable x = true) /\
  (forall c t p x data,
     f !! p = Some x -> content x <> "" -> data <> "" ->
     complete c t (<[p := {| content := data; readable := readable x |}]> f)
     = complete c t f).
Proof.
  split.
  - unfold Target_exists. destruct (f !! path tg) as [x|]; [|split; [done|]].
    + rewrite andb_true_iff, negb_true_iff, bool_decide_eq_false. split.
      * intros [? ?]. by exists x.
      * by intros (? & [= <-] & ? & ?).
    + by intros (? & ? & _).
  - intros c t p x data Hp Hx Hd. unfold complete.
    induction (targets (output c t)) as [|tg' l IH]; [done|]. simpl.
    rewrite IH. f_equal. unfold Target_exists.
    destruct (decide (path tg' = p)) as [->|Hne].
    + rewrite lookup_insert_eq, Hp. simpl.
      by rewrite !bool_decide_eq_false_2.
    + by rewrite lookup_insert_ne.
Qed.

(** C7.  The output declaration of a task is a function of the
    configuration alone, and of it only the output directory matters: two
    configurations with the same prefix give every task the same targets.
    Nothing is run, read or written to compute it. *)
Theorem C7_output_depends_on_prefix_only (c1 c2 : Config) (t : Task) :
  prefix c1 = prefix c2 -> output c1 t = output c2 t.
Proof.
  intros H. destruct t; simpl;
    unfold Output_Dirs.denoise_dir, Output_Dirs.taxonomy_dir,
      Output_Dirs.export_dir, Output_Dirs.out_dir;
    by rewrite ?H.
Qed.

(** ** The claims at concrete inputs *)

Local Abbreviation demo_pipeline spawn :=
  (pipeline spawn Demo.str_exn Demo.str_task Demo.cfg Demo.decodes).
Local Abbreviation demo_run spawn :=
  (run spawn Demo.str_exn Demo.str_task Demo.cfg Demo.decodes).
Local Abbreviation demo_run_cmd spawn :=
  (run_cmd spawn Demo.str_exn).

Lemma spawn_ok_keeps (P : list Target) : keeps_targets Demo.spawn_ok P.
Proof.
  intros cmd f rc out err f' tg E _ H. unfold Demo.spawn_ok in E.
  injection E as _ _ _ <-.
  induction (Demo.created cmd) as [|p l IH]; simpl; [done|].
  unfold Target_exists in *. destruct (decide (path tg = p)) as [->|Hne].
  - by rewrite lookup_insert_eq.
  - by rewrite lookup_insert_ne.
Qed.



Lemma C4_witness :
  complete Demo.cfg Convert_Biom_to_TSV (fs Demo.w_exported) = false /\
  (demo_run (Demo.spawn_lazy "biom") Convert_Biom_to_TSV
     (input Demo.cfg Convert_Biom_to_TSV)
     (add_event (EvRun Convert_Biom_to_TSV) Demo.w_exported)).1 = Ret () /\
  (execute (Demo.spawn_lazy "biom") Demo.str_exn Demo.str_task Demo.cfg Demo.decodes
     Convert_Biom_to_TSV (input Demo.cfg Convert_Biom_to_TSV) Demo.w_exported).1
    = Raised IncompleteOutput.
Proof.
  split; [vm_compute; reflexivity|]. split; [vm_compute; reflexivity|].
  refine (proj1 (C4_missing_output_after_run (Demo.spawn_lazy "biom")
            Demo.str_exn Demo.str_task Demo.cfg Demo.decodes Convert_Biom_to_TSV
            (input Demo.cfg Convert_Biom_to_TSV) Demo.w_exported
            (demo_run (Demo.spawn_lazy "biom") Convert_Biom_to_TSV
               (input Demo.cfg Convert_Biom_to_TSV)
               (add_event (EvRun Convert_Biom_to_TSV) Demo.w_exported)).2
            _ _ _));
    vm_compute; reflexivity.
Defined.

Lemma C5_witness :
  trace (demo_pipeline (Demo.spawn_failing "biom") Convert_Biom_to_TSV Demo.w_exported).2
    = trace Demo.w_exported ++ Demo.before_biom ++ [EvExec Demo.biom_cmd (Some 2%Z)] /\
  exists n out,
    last_run Demo.before_biom = Some n /\
    (forall d, depends_on d n -> (EvRun d ∉ []) /\ (EvResolved d ∉ [])) /\
    @nil Event = [] /\
    (demo_pipeline (Demo.spawn_failing "biom") Convert_Biom_to_TSV Demo.w_exported).1
      = SysExit 1 /\
    last (log (demo_pipeline (Demo.spawn_failing "biom") Convert_Biom_to_TSV
                 Demo.w_exported).2)
      = Some (failure_record Demo.str_exn (Demo.str_task n)
                (CalledProcessError 2 Demo.biom_cmd out)).
Proof.
  split; [vm_compute; reflexivity|].
  apply C5_failure_stops_the_walk; [vm_compute; reflexivity | lia].
Defined.



(** A manifest that is there and readable, but does not decode: the
    error is logged and raised again, and the import is not started. *)
Example undecodable_manifest :
  demo_run Demo.spawn_ok Import_Data (input Demo.cfg Import_Data) Demo.w_latin
  = (Raised UnicodeDecodeError,
     mkWorld (fs Demo.w_latin)
       ["In Import_Data() following error occured" +:+ nl
        +:+ Demo.str_exn UnicodeDecodeError]
       [EvExec ["mkdir"; "-p"; "out"] (Some 0%Z);
        EvOpen "manifest.txt" None]).
Proof. vm_compute; reflexivity. Qed.

Lemma C3_witness :
  Demo.spawn_failing "biom" Demo.biom_cmd (fs Demo.w_exported)
    = Exited 2 "" "boom" (fs Demo.w_exported) /\
  (demo_run_cmd (Demo.spawn_failing "biom") Demo.biom_cmd "Convert_Biom_to_TSV()"
     Demo.w_exported).1 = SysExit 1 /\
  log (demo_run_cmd (Demo.spawn_failing "biom") Demo.biom_cmd "Convert_Biom_to_TSV()"
         Demo.w_exported).2
    = log Demo.w_exported
      ++ ["In Convert_Biom_to_TSV() following error occured" +:+ nl
          +:+ Demo.str_exn (CalledProcessError 2 Demo.biom_cmd "")].
Proof.
  split; [vm_compute; reflexivity|].
  refine (proj2 (proj2 (proj2 (C3_run_cmd_on_exit (Demo.spawn_failing "biom")
            Demo.str_exn Demo.biom_cmd "Convert_Biom_to_TSV()" Demo.w_exported
            2%Z "" "boom" (fs Demo.w_exported) _))) _);
    [vm_compute; reflexivity | lia].
Defined.

(** C3, as stated, at a command that exits with status 2 and writes
    [boom] to standard error: the runner raises nothing to its caller, it
    exits with status 1. *)
Lemma C3_counterexample :
  Demo.spawn_failing "biom" Demo.biom_cmd (fs Demo.w_exported)
    = Exited 2 "" "boom" (fs Demo.w_exported) /\
  (demo_run_cmd (Demo.spawn_failing "biom") Demo.biom_cmd "Convert_Biom_to_TSV()"
     Demo.w_exported).1 = SysExit 1 /\
  ~ exists e,
      (demo_run_cmd (Demo.spawn_failing "biom") Demo.biom_cmd "Convert_Biom_to_TSV()"
         Demo.w_exported).1 = Raised e.
Proof.
  split; [vm_compute; reflexivity|]. split; [vm_compute; reflexivity|].
  intros (e & H). vm_compute in H. discriminate H.
Qed.

Lemma C8_witness :
  Demo.spawn_missing ["qiime"; "tools"; "import"] (fs Demo.w0) = LaunchFailed ENOENT /\
  exists e,
    e = OSError ENOENT "qiime" /\
    (check_output Demo.spawn_missing ["qiime"; "tools"; "import"] Demo.w0).1 = Raised e /\
    (demo_run_cmd Demo.spawn_missing ["qiime"; "tools"; "import"] "Import_Data()"
       Demo.w0).1 = Raised e /\
    fs (demo_run_cmd Demo.spawn_missing ["qiime"; "tools"; "import"] "Import_Data()"
          Demo.w0).2 = fs Demo.w0 /\
    log (demo_run_cmd Demo.spawn_missing ["qiime"; "tools"; "import"] "Import_Data()"
           Demo.w0).2
      = log Demo.w0
        ++ ["In Import_Data() unknown error occured" +:+ nl +:+ Demo.str_exn e].
Proof.
  split; [reflexivity|].
  apply (C8_launch_error_is_raised_again Demo.spawn_missing Demo.str_exn
           ["qiime"; "tools"; "import"] "Import_Data()" Demo.w0 ENOENT).
  reflexivity.
Defined.

Lemma C9_witness :
  writes_log Denoise = true /\
  log_target Demo.cfg Denoise
    = Some (LocalTarget "out/dada2/dada2_log.txt" FormatNop) /\
  (demo_run (Demo.spawn_failing "qiime") Denoise (input Demo.cfg Denoise)
     Demo.w_imported).1 = SysExit 1 /\
  exists new,
    trace (demo_run (Demo.spawn_failing "qiime") Denoise (input Demo.cfg Denoise)
             Demo.w_imported).2 = trace Demo.w_imported ++ new /\
    (forall p, EvWrite p ∈ new ->
       (demo_run (Demo.spawn_failing "qiime") Denoise (input Demo.cfg Denoise)
          Demo.w_imported).1 = Ret () /\
       exists pre cmd,
         (main_cmd Demo.cfg Denoise (input Demo.cfg Denoise) Demo.w_imported).1
           = Ret cmd /\
         new = pre ++ [EvExec cmd (Some 0%Z);
                       EvWrite (path (LocalTarget "out/dada2/dada2_log.txt" FormatNop))]) /\
    ((demo_run (Demo.spawn_failing "qiime") Denoise (input Demo.cfg Denoise)
        Demo.w_imported).1 <> Ret () ->
       (forall p, EvWrite p ∉ new) /\
       (leaves_path (Demo.spawn_failing "qiime")
          (path (LocalTarget "out/dada2/dada2_log.txt" FormatNop)) ->
        fs (demo_run (Demo.spawn_failing "qiime") Denoise (input Demo.cfg Denoise)
              Demo.w_imported).2
          !! path (LocalTarget "out/dada2/dada2_log.txt" FormatNop)
        = fs Demo.w_imported
          !! path (LocalTarget "out/dada2/dada2_log.txt" FormatNop))).
Proof.
  split; [reflexivity|]. split; [vm_compute; reflexivity|].
  split; [vm_compute; reflexivity|].
  apply C9_log_written_only_after_success; [reflexivity | vm_compute; reflexivity].
Defined.

Lemma C10_witness :
  Demo.spawn_checking (mkdir_cmd Demo.cfg Taxonomic_Classification) (fs Demo.w0)
    = Exited 0 "done" "" (fs Demo.w0) /\
  fs Demo.w0 !! classifier Demo.cfg = None /\
  Demo.spawn_checking Demo.classify_cmd (fs Demo.w0)
    = Exited 1 "" "Invalid value for --i-classifier: file does not exist" (fs Demo.w0) /\
  classifier Demo.cfg ∈ Demo.classify_cmd /\
  demo_run Demo.spawn_checking Taxonomic_Classification
    (input Demo.cfg Taxonomic_Classification) Demo.w0
  = (SysExit 1,
     mkWorld (fs Demo.w0)
       (log Demo.w0
        ++ [failure_record Demo.str_exn (Demo.str_task Taxonomic_Classification)
              (CalledProcessError 1 Demo.classify_cmd "")])
       (trace Demo.w0
        ++ [EvExec (mkdir_cmd Demo.cfg Taxonomic_Classification) (Some 0%Z);
            EvExec Demo.classify_cmd (Some 1%Z)])) /\
  failure_record Demo.str_exn (Demo.str_task Taxonomic_Classification)
    (CalledProcessError 1 Demo.classify_cmd "") <> missing_input_record.
Proof.
  split; [vm_compute; reflexivity|]. split; [vm_compute; reflexivity|].
  split; [vm_compute; reflexivity|].
  refine (proj2 (proj2 (C10_only_import_data_checks_its_input Demo.spawn_checking
            Demo.str_exn Demo.str_task Demo.cfg Demo.decodes))
          (input Demo.cfg Taxonomic_Classification) Demo.w0
          "done" "" (fs Demo.w0) Demo.classify_cmd 1%Z
          "" "Invalid value for --i-classifier: file does not exist" (fs Demo.w0)
          _ _ _ _ _);
    first [vm_compute; reflexivity | lia].
Defined.

Lemma C6_witness :
  Demo.w0.(fs) !! "manifest.txt" = Some (Demo.file "sample-id") /\
  Target_exists (fs Demo.w0) (LocalTarget "manifest.txt" FormatDefault) = true /\
  complete Demo.cfg Import_Data
    (<["out/paired-end-demux.qza" := {| content := "truncated"; readable := true |}]>
       (fs Demo.w_imported))
  = complete Demo.cfg Import_Data (fs Demo.w_imported).
Proof.
  split; [vm_compute; reflexivity|]. split.
  - apply (proj1 (C6_exists_is_presence_only (fs Demo.w0)
                    (LocalTarget "manifest.txt" FormatDefault))).
    exists (Demo.file "sample-id"). by vm_compute.
  - apply (proj2 (C6_exists_is_presence_only (fs Demo.w_imported)
                    (LocalTarget "manifest.txt" FormatDefault))
             Demo.cfg Import_Data "out/paired-end-demux.qza" (Demo.file "qza")
             "truncated"); [vm_compute; reflexivity | done | done].
Defined.

Lemma C7_witness :
  prefix (default_config "out" "manifest.txt" "clf.qza")
    = prefix (default_config "out" "other.txt" "silva.qza") /\
  output (default_config "out" "manifest.txt" "clf.qza") Denoise
    = output (default_config "out" "other.txt" "silva.qza") Denoise.
Proof.
  split; [reflexivity|].
  apply C7_output_depends_on_prefix_only. reflexivity.
Defined.

(** ** More about the output declarations *)

Lemma all_targets_paths (c : Config) (l : list Task) :
  path <$> (l ≫= fun t => targets (output c t))
  = (fun s => base_dir c +:+ s) <$> (l ≫= rel_paths).
Proof.
  induction l as [|t l IH]; [done|].
  change (path <$> (targets (output c t) ++ (l ≫= fun t => targets (output c t)))
          = (fun s => base_dir c +:+ s) <$> (rel_paths t ++ (l ≫= rel_paths))).
  by rewrite !fmap_app, targets_paths, IH.
Qed.

(** X1.  Whatever the output prefix, no two targets of the pipeline share
    a path: neither two targets of one task nor targets of two tasks. *)
Theorem X1_target_paths_are_distinct (c : Config) :
  NoDup (path <$> all_targets c).
Proof.
  unfold all_targets. rewrite all_targets_paths.
  apply NoDup_fmap_2; [apply String.app_inj|].
  apply (bool_decide_unpack _). by vm_compute.
Qed.

Lemma has_sep_append (a x : string) : os_path.has_sep (a +:+ "/" +:+ x) = true.
Proof.
  induction a as [|c a IH]; [done|].
  change (String c a +:+ "/" +:+ x) with (String c (a +:+ "/" +:+ x)).
  simpl. rewrite IH. by destruct (bool_decide _).
Qed.

Lemma upto_last_sep_append (a x : string) :
  os_path.has_sep x = false -> os_path.upto_last_sep (a +:+ "/" +:+ x) = a +:+ "/".
Proof.
  intros Hx. induction a as [|c a IH].
  - change ("" +:+ "/" +:+ x) with (String "/" x). simpl. by rewrite Hx.
  - change (String c a +:+ "/" +:+ x) with (String c (a +:+ "/" +:+ x)).
    simpl. rewrite has_sep_append, IH. done.
Qed.

Lemma all_sep_append (a : string) :
  a <> "" -> os_path.endswith_sep a = false -> os_path.all_sep (a +:+ "/") = false.
Proof.
  intros Ha He. induction a as [|c a IH]; [done|].
  change (String c a +:+ "/") with (String c (a +:+ "/")). simpl.
  destruct a as [|c' a].
  - simpl in He. by rewrite He.
  - rewrite IH; [by destruct (bool_decide _)|done|done].
Qed.

Lemma rstrip_sep_append (a : string) :
  a <> "" -> os_path.endswith_sep a = false -> os_path.rstrip_sep (a +:+ "/") = a.
Proof.
  intros Ha He. induction a as [|c a IH]; [done|].
  change (String c a +:+ "/") with (String c (a +:+ "/")).
  change (os_path.rstrip_sep (String c (a +:+ "/")))
    with (if os_path.all_sep (String c (a +:+ "/")) then ""
          else String c (os_path.rstrip_sep (a +:+ "/"))).
  change (String c (a +:+ "/")) with (String c a +:+ "/") at 1.
  rewrite all_sep_append by done.
  destruct a as [|c' a]; [done|]. by rewrite IH.
Qed.

Lemma dirname_file_in (a x : string) :
  a <> "" -> os_path.endswith_sep a = false -> os_path.has_sep x = false ->
  os_path.dirname (a +:+ "/" +:+ x) = a.
Proof.
  intros Ha He Hx. unfold os_path.dirname.
  rewrite upto_last_sep_append by done.
  rewrite all_sep_append by done.
  rewrite bool_decide_eq_false_2 by (by apply append_nonempty).
  simpl. by apply rstrip_sep_append.
Qed.

Lemma dirname_plain (x : string) :
  os_path.has_sep x = false -> os_path.dirname x = "".
Proof.
  intros Hx. unfold os_path.dirname.
  assert (os_path.upto_last_sep x = "") as ->; [|done].
  destruct x as [|c x]; [done|]. simpl in *.
  apply orb_false_iff in Hx as [-> ->]. done.
Qed.

Lemma subdir_shape (p d : string) :
  d <> "" -> os_path.endswith_sep d = false -> os_path.startswith_sep d = false ->
  os_path.join p d <> "" /\ os_path.endswith_sep (os_path.join p d) = false.
Proof.
  intros Hd He Hs. rewrite join_relative by done. rewrite <-append_assoc. split.
  - by apply append_nonempty.
  - by rewrite endswith_sep_append.
Qed.

Lemma dirname_join (a x : string) :
  os_path.endswith_sep a = false ->
  os_path.startswith_sep x = false -> os_path.has_sep x = false ->
  os_path.dirname (os_path.join a x) = a.
Proof.
  intros He Hs Hx. rewrite join_relative by done. unfold sepfix. rewrite He.
  destruct a as [|c a].
  - simpl. by apply dirname_plain.
  - rewrite bool_decide_eq_false_2 by done. simpl.
    by apply dirname_file_in.
Qed.

(** X2.  The directory a run procedure makes first is the directory of
    every target the task declares, so the targets can be created once
    [mkdir -p] has succeeded.  For the two tasks that write straight into
    the output directory this needs a prefix without a trailing separator
    ([os.path.dirname] drops it). *)
Theorem X2_work_dir_is_the_directory_of_the_targets (c : Config) (t : Task)
    (tg : Target) :
  tg ∈ targets (output c t) ->
  (t = Import_Data \/ t = Summarize -> os_path.endswith_sep (prefix c) = false) ->
  os_path.dirname (path tg) = work_dir c t.
Proof.
  intros Htg Hp.
  destruct t; simpl in Htg;
    repeat (apply elem_of_cons in Htg as [->|Htg]);
    try (by apply elem_of_nil in Htg); simpl;
    unfold Output_Dirs.denoise_dir, Output_Dirs.taxonomy_dir,
      Output_Dirs.export_dir, Output_Dirs.out_dir;
    first [ apply dirname_join; [apply Hp; auto|done|done]
          | apply dirname_join; [by apply subdir_shape|done|done] ].
Qed.

Example dirname_trailing_prefix :
  os_path.dirname (os_path.join "out/" "paired-end-demux.qza") = "out".
Proof. reflexivity. Qed.

(** ** More about the requirement graph *)

(** X3.  A task sits strictly above everything it requires, directly or
    through other tasks: the requirement graph has no cycle, and no chain
    of requirements is longer than five. *)
Theorem X3_requirements_go_down (t d : Task) :
  depends_on t d -> height d < height t /\ height t <= 5.
Proof.
  intros H. split; [|destruct t; simpl; lia].
  induction H as [t d H|t m d H _ IH].
  - by apply deps_height.
  - apply deps_height in H. lia.
Qed.

(** X4.  Every task but [Import_Data] itself requires [Import_Data],
    directly or through other tasks, so nothing else can be run before
    the import. *)
Theorem X4_everything_requires_the_import (t : Task) :
  t <> Import_Data -> depends_on t Import_Data.
Proof.
  intros Ht.
  assert (forall a b, b ∈ deps a -> depends_on b Import_Data -> depends_on a Import_Data)
    as via by (intros a b ? ?; by eapply depends_trans).
  assert (depends_on Denoise Import_Data) as Hd
    by (apply depends_direct; unfold deps; simpl; rewrite !elem_of_cons; auto).
  assert (depends_on Taxonomic_Classification Import_Data) as Hc
    by (apply (via _ Denoise); [unfold deps; simpl; rewrite !elem_of_cons; auto|done]).
  assert (depends_on Export_Feature_Table Import_Data) as He
    by (apply (via _ Denoise); [unfold deps; simpl; rewrite !elem_of_cons; auto|done]).
  assert (depends_on Convert_Biom_to_TSV Import_Data) as Hb
    by (apply (via _ Export_Feature_Table);
        [unfold deps; simpl; rewrite !elem_of_cons; auto|done]).
  destruct t; try done;
    first
      [ apply depends_direct; unfold deps; simpl; rewrite !elem_of_cons; by auto
      | apply (via _ Denoise); [unfold deps; simpl; rewrite !elem_of_cons; by auto|done]
      | apply (via _ Taxonomic_Classification);
          [unfold deps; simpl; rewrite !elem_of_cons; by auto|done]
      | apply (via _ Export_Feature_Table);
          [unfold deps; simpl; rewrite !elem_of_cons; by auto|done]
      | apply (via _ Convert_Biom_to_TSV);
          [unfold deps; simpl; rewrite !elem_of_cons; by auto 10|done] ].
Qed.

(** ** More about the commands *)

Ltac among := rewrite !elem_of_cons; by auto 30.

Ltac pick_target :=
  first
    [ eexists; split; [apply list_elem_of_here|among]
    | eexists; split; [apply list_elem_of_further, list_elem_of_here|among]
    | eexists; split;
        [apply list_elem_of_further, list_elem_of_further, list_elem_of_here|among]
    | eexists; split;
        [apply list_elem_of_further, list_elem_of_further, list_elem_of_further,
           list_elem_of_here|among] ].

(** X5.  The subscripts and attributes a run procedure takes from
    [self.input()] and [self.output()] are all there: with the inputs its
    requirements declare, building the command of a task never raises
    [KeyError], [TypeError] or [AttributeError], and touches nothing. *)
Theorem X5_command_building_never_raises (c : Config) (t : Task) (w : World) :
  exists cmd, main_cmd c t (input c t) w = (Ret cmd, w).
Proof. destruct t; by eexists. Qed.

(** X6.  Every requirement a task declares is used: the command of the
    task names the path of a target of each task it requires. *)
Theorem X6_every_requirement_is_consumed (c : Config) (t d : Task) (w : World)
    (cmd : Cmd) :
  t <> Run_All ->
  d ∈ deps t ->
  (main_cmd c t (input c t) w).1 = Ret cmd ->
  exists tg, tg ∈ targets (output c d) /\ path tg ∈ cmd.
Proof.
  intros Ht Hd Hc.
  destruct t; try done; unfold deps in Hd; simpl in Hd;
    repeat (apply elem_of_cons in Hd as [->|Hd]);
    try (by apply elem_of_nil in Hd);
    injection Hc as <-; simpl; pick_target.
Qed.

(** X7.  The command of a task is told where to write every target the
    task declares, the log target apart (the task writes that one
    itself): it names the path of the target, or, for the three export
    tasks, the directory of the target. *)
Theorem X7_command_names_the_targets (c : Config) (t : Task) (tg : Target)
    (w : World) (cmd : Cmd) :
  tg ∈ targets (output c t) ->
  log_target c t <> Some tg ->
  (main_cmd c t (input c t) w).1 = Ret cmd ->
  (if is_export t then os_path.dirname (path tg) else path tg) ∈ cmd.
Proof.
  intros Htg Hl Hc.
  destruct t; simpl in Htg;
    repeat (apply elem_of_cons in Htg as [->|Htg]);
    try (by apply elem_of_nil in Htg);
    try (by destruct Hl);
    injection Hc as <-; simpl; among.
Qed.

(** ** More about the run procedures *)

Section More.
Context (spawn : Cmd -> FS -> Spawned) (str_exn : Exn -> string)
        (str_task : Task -> string) (cfg : Config) (decodes : string -> bool).

Local Abbreviation run_cmd := (run_cmd spawn str_exn).
Local Abbreviation check_manifest := (check_manifest str_exn decodes).
Local Abbreviation main_cmd := (main_cmd cfg).
Local Abbreviation mkdir_cmd := (mkdir_cmd cfg).
Local Abbreviation write_log := (write_log cfg).
Local Abbreviation run := (run spawn str_exn str_task cfg decodes).

(** X8.  When [mkdir -p] exits with a nonzero status the run procedure
    does nothing more: no input is checked, the main command is not
    started, nothing is written; one record is logged and the process
    exits with status 1. *)
Theorem X8_failed_mkdir_stops_the_run (t : Task) (inp : Inputs) (w : World)
    (rc : Z) (out err : string) (f' : FS) :
  t <> Run_All ->
  spawn (mkdir_cmd t) (fs w) = Exited rc out err f' ->
  rc <> 0%Z ->
  run t inp w =
  (SysExit 1,
   mkWorld f'
     (log w ++ ["In " +:+ str_task t +:+ " following error occured" +:+ nl
                +:+ str_exn (CalledProcessError rc (mkdir_cmd t) out)])
     (trace w ++ [EvExec (mkdir_cmd t) (Some rc)])).
Proof.
  intros Ht E Hrc. rewrite run_shape by done.
  erewrite bind_eq
    by (rewrite run_cmd_eq, E; simpl; rewrite bool_decide_eq_false_2 by done; done).
  done.
Qed.

(** X9.  When both commands of a log-writing task exit with status 0, the
    run procedure returns, logs nothing, and leaves in the log target
    exactly the standard output captured from the main command, on top of
    the file system that command left. *)
Theorem X9_log_holds_the_captured_output (t : Task) (inp : Inputs) (w : World)
    (tg : Target) (out1 err1 : string) (f1 : FS) (cmd : Cmd)
    (out err : string) (f2 : FS) :
  writes_log t = true ->
  log_target cfg t = Some tg ->
  spawn (mkdir_cmd t) (fs w) = Exited 0 out1 err1 f1 ->
  (main_cmd t inp w).1 = Ret cmd ->
  spawn cmd f1 = Exited 0 out err f2 ->
  (run t inp w).1 = Ret () /\
  fs (run t inp w).2 = <[path tg := {| content := out; readable := true |}]> f2 /\
  log (run t inp w).2 = log w.
Proof.
  intros Ht Htg E1 Hc E2.
  assert (t <> Run_All /\ t <> Import_Data) as [Hr Hi] by (by destruct t).
  assert (run t inp w =
          (Ret (),
           mkWorld (<[path tg := {| content := out; readable := true |}]> f2) (log w)
             (trace w ++ [EvExec (mkdir_cmd t) (Some 0%Z); EvExec cmd (Some 0%Z);
                          EvWrite (path tg)]))) as ->; [|done].
  rewrite run_shape, Ht by done.
  erewrite bind_eq by (rewrite run_cmd_eq, E1; simpl; done).
  replace (match t with Import_Data => check_manifest (manifest_file cfg) | _ => ret () end)
    with (@ret World _ ()) by (by destruct t).
  unfold bind at 1. unfold ret at 1.
  destruct (main_cmd_cases cfg t inp) as [(cmd' & Hc')|(e & He & Hc')];
    rewrite Hc' in Hc; [|done].
  injection Hc as ->. rewrite (bind_eq _ _ _ _ _ (Hc' _)).
  erewrite bind_eq by (rewrite run_cmd_eq; simpl; rewrite E2; simpl; done).
  cbv beta iota. rewrite (write_log_eq _ _ _ _ _ Htg).
  unfold set_fs, add_event. simpl. by rewrite <-!app_assoc.
Qed.

#[local] Instance no_write_stepwise : Stepwise no_write.
Proof.
  split.
  - intros w. exists []. rewrite app_nil_r. split; [done|].
    intros p. apply not_elem_of_nil.
  - intros w1 w2 w3 o (new1 & E1 & H1) (new2 & E2 & H2).
    exists (new1 ++ new2). rewrite E2, E1, app_assoc. split; [done|].
    intros p [?|?]%elem_of_app; [by eapply H1|by eapply H2].
Qed.

Lemma no_write_event (ev : Event) (o : Outcome) (w w' : World) :
  trace w' = trace w ++ [ev] -> (forall p, ev <> EvWrite p) -> no_write w o w'.
Proof.
  intros E He. exists [ev]. split; [done|].
  intros p Hn%list_elem_of_singleton. by destruct (He p).
Qed.

(** X10.  A task that declares no log target never writes a file itself:
    whatever its commands do, no write of the task is among the events of
    its run procedure. *)
Theorem X10_only_log_writers_write (t : Task) (inp : Inputs) (w : World) :
  writes_log t = false ->
  exists new,
    trace (run t inp w).2 = trace w ++ new /\ forall p, EvWrite p ∉ new.
Proof.
  intros Ht. apply (holds_run spawn str_exn str_task cfg decodes no_write); [| | |by rewrite Ht].
  - intros e w' _. exists []. rewrite app_nil_r. split; [done|].
    intros p. apply not_elem_of_nil.
  - intros cmd w'. rewrite run_cmd_eq.
    destruct (spawn cmd (fs w')); [case_bool_decide|]; simpl;
      by eapply no_write_event.
  - intros _ w'. rewrite check_manifest_eq.
    destruct (fs w' !! _) as [f|]; [destruct (readable f); [destruct (decodes (content f))|]|]; simpl;
      by eapply no_write_event.
Qed.

#[local] Instance reports_stepwise : Stepwise reports.
Proof.
  split.
  - intros w. exists []. rewrite app_nil_r. simpl. split; [done|]. split; [lia|done].
  - intros w1 w2 w3 o (a1 & E1 & L1 & H1) (a2 & E2 & L2 & H2).
    rewrite (H1 eq_refl), app_nil_r in E1. exists a2. by rewrite E2, E1.
Qed.

(** X11.  A run procedure logs at most one record, and none when it
    returns: every failure is reported once, success is silent. *)
Theorem X11_one_record_per_failure (t : Task) (inp : Inputs) (w : World) :
  exists added,
    log (run t inp w).2 = log w ++ added /\
    length added <= 1 /\
    ((run t inp w).1 = Ret () -> added = []).
Proof.
  assert (holds reports (run t inp)) as H.
  { apply holds_run; [typeclasses eauto| | | |].
    - intros e w' _. exists []. rewrite app_nil_r. simpl. split; [done|]. split; [lia|done].
    - intros cmd w'. rewrite run_cmd_eq.
      destruct (spawn cmd (fs w')); [case_bool_decide|]; simpl.
      + exists []. rewrite app_nil_r. simpl. split; [done|]. split; [lia|done].
      + eexists [_]. simpl. split; [done|]. split; [lia|done].
      + eexists [_]. simpl. split; [done|]. split; [lia|done].
    - intros _ w'. rewrite check_manifest_eq.
      destruct (fs w' !! _) as [f|]; [destruct (readable f); [destruct (decodes (content f))|]|]; simpl.
      + exists []. rewrite app_nil_r. simpl. split; [done|]. split; [lia|done].
      + eexists [_]. simpl. split; [done|]. split; [lia|done].
      + eexists [_]. simpl. split; [done|]. split; [lia|done].
      + eexists [_]. simpl. split; [done|]. split; [lia|done].
    - intros data Ht w'. destruct (log_target_writes cfg t Ht) as [tg Htg].
      rewrite (write_log_eq _ _ _ _ _ Htg).
      exists []. rewrite app_nil_r. simpl. split; [done|]. split; [lia|done]. }
  destruct (H w) as (added & E & L & Hd). exists added.
  split; [done|]. split; [done|]. intros Hr. apply Hd. by rewrite Hr.
Qed.

#[local] Instance clean_stepwise : Stepwise clean.
Proof.
  split.
  - intros w. exists []. rewrite app_nil_r. split; [done|].
    by intros _ cmd r ?%elem_of_nil.
  - intros w1 w2 w3 o (new1 & E1 & H1) (new2 & E2 & H2).
    exists (new1 ++ new2). rewrite E2, E1, app_assoc. split; [done|].
    intros Ho cmd r [?|?]%elem_of_app; [by eapply H1|by eapply H2].
Qed.

Lemma clean_event (ev : Event) (o : Outcome) (w w' : World) :
  trace w' = trace w ++ [ev] ->
  (o = Done -> forall cmd r, ev = EvExec cmd r -> r = Some 0%Z) ->
  clean w o w'.
Proof.
  intros E He. exists [ev]. split; [done|].
  intros Ho cmd r Hn%list_elem_of_singleton. by eapply He.
Qed.

(** X12.  A run procedure returns only if every command it started exited
    with status 0: no nonzero exit and no failed launch is ever passed
    over. *)
Theorem X12_return_means_every_command_succeeded (t : Task) (inp : Inputs)
    (w : World) :
  (run t inp w).1 = Ret () ->
  exists new,
    trace (run t inp w).2 = trace w ++ new /\
    forall cmd r, EvExec cmd r ∈ new -> r = Some 0%Z.
Proof.
  assert (holds clean (run t inp)) as H.
  { apply holds_run; [typeclasses eauto| | | |].
    - intros e w' _. exists []. rewrite app_nil_r. split; [done|]. done.
    - intros cmd w'. rewrite run_cmd_eq.
      destruct (spawn cmd (fs w')); [case_bool_decide|]; simpl;
        eapply clean_event; try done.
      intros _ cmd' r [= _ <-]. by subst.
    - intros _ w'. rewrite check_manifest_eq.
      destruct (fs w' !! _) as [f|]; [destruct (readable f); [destruct (decodes (content f))|]|]; simpl;
        by eapply clean_event.
    - intros data Ht w'. destruct (log_target_writes cfg t Ht) as [tg Htg].
      rewrite (write_log_eq _ _ _ _ _ Htg). by eapply clean_event. }
  intros Hr. destruct (H w) as (new & E & Hn). exists new.
  split; [done|]. apply Hn. by rewrite Hr.
Qed.

#[local] Instance grows_stepwise : Stepwise grows.
Proof.
  split.
  - intros w. exists []. by rewrite app_nil_r.
  - intros w1 w2 w3 o (new1 & E1) (new2 & E2).
    exists (new1 ++ new2). by rewrite E2, E1, app_assoc.
Qed.

Lemma run_cmd_grows (cmd : Cmd) (step : string) : holds grows (run_cmd cmd step).
Proof.
  intros w. rewrite run_cmd_eq.
  destruct (spawn cmd (fs w)); [case_bool_decide|]; simpl; by eexists [_].
Qed.

Lemma check_manifest_grows (p : string) : holds grows (check_manifest p).
Proof.
  intros w. rewrite check_manifest_eq.
  destruct (fs w !! p) as [f|]; [destruct (readable f); [destruct (decodes (content f))|]|]; simpl; by eexists [_].
Qed.

Lemma grows_silent (o : Outcome) (w : World) : grows w o w.
Proof. exists []. by rewrite app_nil_r. Qed.

(** X13.  Making the directory comes first: whatever happens later, the
    first thing a run procedure does is to start [mkdir -p] on the
    directory of the task. *)
Theorem X13_mkdir_comes_first (t : Task) (inp : Inputs) (w : World) :
  t <> Run_All ->
  exists r rest,
    trace (run t inp w).2 = trace w ++ EvExec (mkdir_cmd t) r :: rest.
Proof.
  intros Ht. rewrite run_shape by done. unfold bind at 1. rewrite run_cmd_eq.
  destruct (spawn (mkdir_cmd t) (fs w)) as [rc out err f1|errno];
    [case_bool_decide|]; simpl.
  2,3: by eexists _, [].
  match goal with
  | |- context [trace (?k ?w1).2] =>
      assert (holds grows k) as Hk; [|destruct (Hk w1) as (new & E)]
  end.
  { hsplit. { destruct t; first [apply check_manifest_grows | hret]. }
    hsplit. { apply holds_main_cmd; [typeclasses eauto|]. intros e w' _. apply grows_silent. }
    hsplit. { apply run_cmd_grows. }
    destruct (writes_log t) eqn:Hl; [|hret].
    intros w'. destruct (log_target_writes cfg t Hl) as [tg Htg].
    rewrite (write_log_eq _ _ _ _ _ Htg). by eexists [_]. }
  exists (Some rc), new. rewrite E. simpl. by rewrite <-app_assoc.
Qed.

Local Abbreviation import_cmd :=
  ["qiime"; "tools"; "import";
   "--type"; sample_type cfg;
   "--input-path"; manifest_file cfg;
   "--output-path"; os_path.join (Output_Dirs.out_dir cfg) "paired-end-demux.qza";
   "--input-format"; input_format cfg].


End More.


(** ** The further properties at concrete inputs *)

Lemma X2_witness :
  LocalTarget "out/paired-end-demux.qza" FormatDefault
    ∈ targets (output Demo.cfg Import_Data) /\
  os_path.endswith_sep (prefix Demo.cfg) = false /\
  os_path.dirname (path (LocalTarget "out/paired-end-demux.qza" FormatDefault))
    = work_dir Demo.cfg Import_Data.
Proof.
  split; [apply list_elem_of_here|]. split; [reflexivity|].
  apply X2_work_dir_is_the_directory_of_the_targets;
    [apply list_elem_of_here | intros _; reflexivity].
Defined.

Lemma Denoise_requires_import : depends_on Denoise Import_Data.
Proof. apply depends_direct. apply list_elem_of_here. Qed.

Lemma X3_witness :
  depends_on Taxonomic_Classification Import_Data /\
  height Import_Data < height Taxonomic_Classification /\
  height Taxonomic_Classification <= 5.
Proof.
  assert (depends_on Taxonomic_Classification Import_Data) as H.
  { eapply depends_trans; [apply list_elem_of_here|apply Denoise_requires_import]. }
  split; [exact H|]. by apply X3_requirements_go_down.
Defined.

Lemma X4_witness :
  Generate_Combined_Feature_Table <> Import_Data /\
  depends_on Generate_Combined_Feature_Table Import_Data.
Proof.
  split; [discriminate|].
  apply X4_everything_requires_the_import. discriminate.
Defined.

Lemma X6_witness :
  Denoise_Tabulate <> Run_All /\
  Denoise ∈ deps Denoise_Tabulate /\
  exists tg,
    tg ∈ targets (output Demo.cfg Denoise) /\
    path tg ∈ ["qiime"; "metadata"; "tabulate";
               "--m-input-file"; "out/dada2/stats-dada2.qza";
               "--o-visualization"; "out/dada2/stats-dada2.qzv"].
Proof.
  split; [discriminate|]. split; [apply list_elem_of_here|].
  apply (X6_every_requirement_is_consumed Demo.cfg Denoise_Tabulate Denoise Demo.w0);
    [discriminate | apply list_elem_of_here | reflexivity].
Defined.

Lemma X7_witness :
  LocalTarget "out/exported/feature-table.biom" FormatDefault
    ∈ targets (output Demo.cfg Export_Feature_Table) /\
  log_target Demo.cfg Export_Feature_Table
    <> Some (LocalTarget "out/exported/feature-table.biom" FormatDefault) /\
  os_path.dirname "out/exported/feature-table.biom"
    ∈ ["qiime"; "tools"; "export";
       "--input-path"; "out/dada2/dada2-table.qza";
       "--output-path"; "out/exported"].
Proof.
  split; [apply list_elem_of_here|]. split; [discriminate|].
  apply (X7_command_names_the_targets Demo.cfg Export_Feature_Table
           (LocalTarget "out/exported/feature-table.biom" FormatDefault) Demo.w0);
    [apply list_elem_of_here | discriminate | reflexivity].
Defined.

Lemma X8_witness :
  Summarize <> Run_All /\
  Demo.spawn_failing "mkdir" (mkdir_cmd Demo.cfg Summarize) (fs Demo.w_imported)
    = Exited 2 "" "boom" (fs Demo.w_imported) /\
  demo_run (Demo.spawn_failing "mkdir") Summarize (input Demo.cfg Summarize)
    Demo.w_imported
  = (SysExit 1,
     mkWorld (fs Demo.w_imported)
       (log Demo.w_imported
        ++ ["In " +:+ Demo.str_task Summarize +:+ " following error occured" +:+ nl
            +:+ Demo.str_exn
                  (CalledProcessError 2 (mkdir_cmd Demo.cfg Summarize) "")])
       (trace Demo.w_imported ++ [EvExec (mkdir_cmd Demo.cfg Summarize) (Some 2%Z)])).
Proof.
  split; [discriminate|]. split; [reflexivity|].
  apply (X8_failed_mkdir_stops_the_run (Demo.spawn_failing "mkdir") Demo.str_exn
           Demo.str_task Demo.cfg Demo.decodes Summarize (input Demo.cfg Summarize)
           Demo.w_imported 2%Z "" "boom" (fs Demo.w_imported));
    [discriminate | reflexivity | lia].
Defined.

Lemma X9_witness :
  writes_log Denoise = true /\
  log_target Demo.cfg Denoise = Some (LocalTarget "out/dada2/dada2_log.txt" FormatNop) /\
  Demo.spawn_ok (mkdir_cmd Demo.cfg Denoise) (fs Demo.w_imported)
    = Exited 0 "done" "" (fs Demo.w_imported) /\
  (main_cmd Demo.cfg Denoise (input Demo.cfg Denoise) Demo.w_imported).1
    = Ret Demo.denoise_cmd /\
  Demo.spawn_ok Demo.denoise_cmd (fs Demo.w_imported) = Exited 0 "done" "" Demo.denoised /\
  (demo_run Demo.spawn_ok Denoise (input Demo.cfg Denoise) Demo.w_imported).1 = Ret () /\
  fs (demo_run Demo.spawn_ok Denoise (input Demo.cfg Denoise) Demo.w_imported).2
    = <["out/dada2/dada2_log.txt" := {| content := "done"; readable := true |}]>
        Demo.denoised /\
  log (demo_run Demo.spawn_ok Denoise (input Demo.cfg Denoise) Demo.w_imported).2
    = log Demo.w_imported.
Proof.
  split; [reflexivity|]. split; [reflexivity|]. split; [reflexivity|].
  split; [reflexivity|]. split; [reflexivity|].
  apply (X9_log_holds_the_captured_output Demo.spawn_ok Demo.str_exn Demo.str_task
           Demo.cfg Demo.decodes Denoise (input Demo.cfg Denoise) Demo.w_imported
           (LocalTarget "out/dada2/dada2_log.txt" FormatNop)
           "done" "" (fs Demo.w_imported) Demo.denoise_cmd "done" "" Demo.denoised);
    reflexivity.
Defined.

Lemma X10_witness :
  writes_log Summarize = false /\
  exists new,
    trace (demo_run Demo.spawn_ok Summarize (input Demo.cfg Summarize)
             Demo.w_imported).2 = trace Demo.w_imported ++ new /\
    forall p, EvWrite p ∉ new.
Proof.
  split; [reflexivity|].
  apply X10_only_log_writers_write. reflexivity.
Defined.

Lemma X12_witness :
  (demo_run Demo.spawn_ok Summarize (input Demo.cfg Summarize) Demo.w_imported).1
    = Ret () /\
  exists new,
    trace (demo_run Demo.spawn_ok Summarize (input Demo.cfg Summarize)
             Demo.w_imported).2 = trace Demo.w_imported ++ new /\
    forall cmd r, EvExec cmd r ∈ new -> r = Some 0%Z.
Proof.
  split; [vm_compute; reflexivity|].
  apply X12_return_means_every_command_succeeded. vm_compute; reflexivity.
Defined.

Lemma X13_witness :
  Summarize <> Run_All /\
  exists r rest,
    trace (demo_run (Demo.spawn_failing "qiime") Summarize (input Demo.cfg Summarize)
             Demo.w_imported).2
    = trace Demo.w_imported ++ EvExec (mkdir_cmd Demo.cfg Summarize) r :: rest.
Proof.
  split; [discriminate|].
  apply X13_mkdir_comes_first. discriminate.
Defined.


